(** * AirPodsDesktop: the advertisement core ([Source/Core/AirPods.cpp])

    A shallow embedding of the decoder ([Advertisement]), the plausibility
    filter and reconciliation engine ([StateManager]) and the advertisement
    entry point of the orchestrator ([Manager]), with the properties the
    design document states about them.

    Every public entry point of the C++ code takes the object's mutex for
    its whole body, so calls are serialised; the embedding is sequential and
    passes the object state explicitly.  Calls to the logger and to the
    window / media collaborators are recorded as a trace of [Effect]s. *)

From Stdlib Require Import ZArith Lia Bool String List.
From Stdlib Require Import Strings.Byte.
From stdpp Require Import base decidable option numbers strings gmap.
Import ListNotations.

Local Open Scope Z_scope.

(** ** Fixed-width integers *)

Module Int.

(** Conversion of a mathematical integer to an unsigned [bits]-wide type. *)
Definition wrapU (bits z : Z) : Z := z mod 2 ^ bits.

(** Conversion of a mathematical integer to a signed two's-complement
    [bits]-wide type. *)
Definition wrapS (bits z : Z) : Z :=
  (z + 2 ^ (bits - 1)) mod 2 ^ bits - 2 ^ (bits - 1).

(** [int16_t x = std::abs(a - b)] for [int16_t a, b]: the operands are
    promoted to [int], the difference and its absolute value are exact,
    and the result is narrowed back to 16 bits. *)
Definition absdiff16 (a b : Z) : Z := wrapS 16 (Z.abs (a - b)).

End Int.

(** ** Data model *)

Inductive Side := Left | Right.

(** Modelled from the spec: the [Model] enumeration is declared in a header
    that is not among the sources; the data model describes it as an
    identifier enumeration that includes an [Unknown] sentinel.  Every other
    enumerator is represented by its numeric tag. *)
Inductive Model := Unknown | Known (tag : N).

(** [Battery]: an optional value of the unsigned type [Battery::ValueType].
    [Available()] is [is_Some], [Value()] the content. *)
Definition Battery := option Z.

Definition Available (b : Battery) : bool :=
  match b with Some _ => true | None => false end.

Definition Timestamp := Z.
Definition AddressType := Z.

Module Sides.
(** [Helper::Sides<T>] *)
Record t (T : Type) := mk { left : T; right : T }.
Arguments mk {T} _ _.
Arguments left {T} _.
Arguments right {T} _.
End Sides.

Module PodState.
Record t := mk { battery : Battery; isCharging : bool; isInEar : bool }.
End PodState.

Module CaseState.
Record t := mk {
    battery : Battery;
    isCharging : bool;
    isBothPodsInCase : bool;
    isLidOpened : bool
  }.
End CaseState.

Module AdvState.
(** [Advertisement::AdvState] *)
Record t := mk {
    model : Model;
    side : Side;
    pods : Sides.t PodState.t;
    caseBox : CaseState.t
  }.
End AdvState.

Module State.
(** The merged snapshot handed to the collaborators. *)
Record t := mk {
    model : Model;
    pods : Sides.t PodState.t;
    caseBox : CaseState.t;
    displayName : string
  }.
End State.

(** Modelled from the spec: the member initialisers of [PodState],
    [CaseState], [AdvState] and [State] are in the missing header.  A
    value-initialised snapshot reports nothing: the model is the [Unknown]
    sentinel, no battery is available and every flag is off ("optional
    battery means not reported"; a group both of whose sources are empty
    stays unavailable). *)
Definition PodState_default : PodState.t := PodState.mk None false false.

(** Modelled from the spec: the value-initialised [CaseState] of the missing
    header; no battery reported, every flag off. *)
Definition CaseState_default : CaseState.t := CaseState.mk None false false false.

(** Modelled from the spec: the value-initialised [AdvState] of the missing
    header, built from the defaults above with the [Unknown] model (the
    side is the zero enumerator). *)
Definition AdvState_default : AdvState.t :=
  AdvState.mk Unknown Left (Sides.mk PodState_default PodState_default)
    CaseState_default.

(** Modelled from the spec: the default-constructed [State] of the missing
    header; its display name is the empty string. *)
Definition State_default : State.t :=
  State.mk Unknown (Sides.mk PodState_default PodState_default)
    CaseState_default EmptyString.

(** The value-initialised [std::chrono] time point: the clock's epoch. *)
Definition Timestamp_default : Timestamp := 0.

#[global] Instance Side_eq_dec : EqDecision Side.
Proof. solve_decision. Defined.
#[global] Instance Model_eq_dec : EqDecision Model.
Proof. solve_decision. Defined.
#[global] Instance PodState_eq_dec : EqDecision PodState.t.
Proof. solve_decision. Defined.
#[global] Instance CaseState_eq_dec : EqDecision CaseState.t.
Proof. solve_decision. Defined.
#[global] Instance Sides_eq_dec {T} `{EqDecision T} : EqDecision (Sides.t T).
Proof. solve_decision. Defined.
#[global] Instance State_eq_dec : EqDecision State.t.
Proof. solve_decision. Defined.

(** [Bluetooth::AdvertisementWatcher::ReceivedData]: one raw broadcast
    record.  [rssi] is an [int16_t]; the manufacturer data map is keyed by
    the 16-bit company identifier. *)
Module ReceivedData.
Record t := mk {
  rssi : Z;
  timestamp : Timestamp;
  address : AddressType;
  manufacturerDataMap : gmap Z (list byte)
}.
End ReceivedData.

(** The structure [AppleCP::AirPods] is declared outside the sources; the
    constructor of [Advertisement] only reads it through the accessors
    below, so a parsed payload is represented by what they return. *)
Module Protocol.
Record t := mk {
  GetModel : Model;
  GetBroadcastedSide : Side;
  GetLeftBattery : Battery;
  IsLeftCharging : bool;
  IsLeftInEar : bool;
  GetRightBattery : Battery;
  IsRightCharging : bool;
  IsRightInEar : bool;
  GetCaseBattery : Battery;
  IsCaseCharging : bool;
  IsBothPodsInCase : bool;
  IsLidOpened : bool
}.
End Protocol.

(** Modelled from the spec: [AppleCP::As<AppleCP::AirPods>] is not among
    the sources.  Decoding has the recogniser as its only precondition
    ("Decode(raw): precondition Recognizes(raw) holds"), so the parser
    yields a structure for every payload that passes the validity check. *)
Definition As_parses_valid
  (IsValid : list byte -> bool) (As : list byte -> option Protocol.t) : Prop :=
  forall d, IsValid d = true -> exists p, As d = Some p.

(** What the translation unit takes from its headers and libraries:
    - [BatteryBits]: the width of the unsigned type [Battery::ValueType]
      (every C++ integer type has at least 8 bits);
    - [VendorId], [IsValid], [As]: the [AppleCP] protocol layer;
    - [ToString]: [Helper::ToString] on models;
    - [QString_remove]: [QString::remove(const QString &)]. *)
Class Platform := {
  BatteryBits : Z;
  BatteryBits_min : 8 <= BatteryBits;
  VendorId : Z;
  IsValid : list byte -> bool;
  As : list byte -> option Protocol.t;
  As_IsValid : As_parses_valid IsValid As;
  ToString : Model -> string;
  QString_remove : string -> string -> string
}.

(** ** Effects *)

Inductive LogLevel := Trace | Info | Warn | Error.

(** Calls that leave the core: a log line (identified by its level and
    format string), the main window's thread-safe slots, and the media
    transport. *)
Inductive Effect :=
| LOG (level : LogLevel) (fmt : string)
| DisconnectSafely
| UpdateStateSafely (state : State.t)
| ShowSafely
| HideSafely
| GlobalMedia_Play
| GlobalMedia_Pause.

(** A method of an object with state [S]: it returns a value, leaves a new
    object state and a trace of effects. *)
Definition Prog (S A : Type) : Type := S -> A * S * list Effect.

Definition ret {S A} (a : A) : Prog S A := fun s => (a, s, []).

Definition bind {S A B} (m : Prog S A) (k : A -> Prog S B) : Prog S B :=
  fun s =>
    let '(a, s1, e1) := m s in
    let '(b, s2, e2) := k a s1 in
    (b, s2, e1 ++ e2).

Definition get {S} : Prog S S := fun s => (s, s, []).
Definition put {S} (s' : S) : Prog S unit := fun _ => (tt, s', []).
Definition modify {S} (f : S -> S) : Prog S unit := fun s => (tt, f s, []).
Definition emit {S} (e : Effect) : Prog S unit := fun s => (tt, s, [e]).

Definition result {S A} (r : A * S * list Effect) : A := fst (fst r).
Definition final {S A} (r : A * S * list Effect) : S := snd (fst r).
Definition effects {S A} (r : A * S * list Effect) : list Effect := snd r.

Declare Scope prog_scope.
Delimit Scope prog_scope with prog.
Notation "'let*' x ':=' c1 'in' c2" := (bind c1 (fun x => c2))
  (at level 10, x name, c1 at level 100, c2 at level 200) : prog_scope.
Notation "c1 '>>' c2" := (bind c1 (fun _ => c2))
  (at level 100, c2 at level 200, right associativity) : prog_scope.

(** An operation that may hit [APD_ASSERT]: the assertion that failed, or
    the value. *)
Inductive Outcome (A : Type) :=
| Fatal (assertion : string)
| Done (a : A).
Arguments Fatal {A} _.
Arguments Done {A} _.

Module Timer.

(** The callbacks the constructor of [StateManager] hands to its timers. *)
Inductive Callback := CbDoLost | CbDoStateReset (side : Side).

(** Modelled from the spec: the timer class is not among the sources.
    Timers "follow a reset-on-activity pattern (each relevant event
    restarts the timer's countdown)"; "a fired timer simply executes its
    callback under the same lock".  A timer is its interval in seconds, the
    callback it was started with and the instant its countdown last
    restarted. *)
Record t := mk { interval : Z; callback : Callback; restarted : Timestamp }.

(** Modelled from the spec: [Start] arms the timer with an interval and a
    callback. *)
Definition Start (seconds : Z) (cb : Callback) (now : Timestamp) : t :=
  mk seconds cb now.

(** Modelled from the spec: [Reset] restarts the countdown and keeps the
    interval and the callback. *)
Definition Reset (now : Timestamp) (tm : t) : t :=
  mk (interval tm) (callback tm) now.

End Timer.

(** [Advertisement]: the raw record, the parsed payload and the decoded
    status. *)
Record Advertisement := mkAdvertisement {
  _data : ReceivedData.t;
  _protocol : Protocol.t;
  _state : AdvState.t
}.

Definition GetRssi (adv : Advertisement) : Z := ReceivedData.rssi (_data adv).

Definition GetTimestamp (adv : Advertisement) : Timestamp :=
  ReceivedData.timestamp (_data adv).

Definition GetAddress (adv : Advertisement) : AddressType :=
  ReceivedData.address (_data adv).

Definition GetAdvState (adv : Advertisement) : AdvState.t := _state adv.

(** [StateManager::UpdateEvent] *)
Record UpdateEvent := mkUpdateEvent {
  oldState : option State.t;
  newState : State.t
}.

(** [StateManager]: the per-side caches [_adv], the canonical state
    [_cachedState], the RSSI floor and the three timers. *)
Record StateManager := mkStateManager {
  _adv : Sides.t (option (Advertisement * Timestamp));
  _cachedState : option State.t;
  _rssiMin : Z;
  _lostTimer : Timer.t;
  _stateResetTimer : Sides.t Timer.t
}.

Definition with_adv (f : Sides.t (option (Advertisement * Timestamp)) ->
                         Sides.t (option (Advertisement * Timestamp)))
  (s : StateManager) : StateManager :=
  mkStateManager (f (_adv s)) (_cachedState s) (_rssiMin s) (_lostTimer s)
    (_stateResetTimer s).

Definition with_cachedState (c : option State.t) (s : StateManager)
  : StateManager :=
  mkStateManager (_adv s) c (_rssiMin s) (_lostTimer s) (_stateResetTimer s).

Definition with_rssiMin (r : Z) (s : StateManager) : StateManager :=
  mkStateManager (_adv s) (_cachedState s) r (_lostTimer s)
    (_stateResetTimer s).

Definition with_lostTimer (f : Timer.t -> Timer.t) (s : StateManager)
  : StateManager :=
  mkStateManager (_adv s) (_cachedState s) (_rssiMin s) (f (_lostTimer s))
    (_stateResetTimer s).

Definition with_stateResetTimer (f : Sides.t Timer.t -> Sides.t Timer.t)
  (s : StateManager) : StateManager :=
  mkStateManager (_adv s) (_cachedState s) (_rssiMin s) (_lostTimer s)
    (f (_stateResetTimer s)).

Definition set_left {T} (x : T) (p : Sides.t T) : Sides.t T :=
  Sides.mk x (Sides.right p).

Definition set_right {T} (x : T) (p : Sides.t T) : Sides.t T :=
  Sides.mk (Sides.left p) x.

(** [std::optional::has_value] *)
Definition has_value {A} (o : option A) : bool :=
  match o with Some _ => true | None => false end.

(** Modelled from the spec: [State::operator==] is declared in the missing
    header; "equality is structural; used to suppress duplicate events".
    This is [newState == _cachedState] between a [State] and an optional
    one: true when the optional holds an equal state. *)
Definition State_equal (newState : State.t) (cached : option State.t) : bool :=
  bool_decide (Some newState = cached).

(** [Manager]: the members the advertisement path reads or writes. *)
Record Manager := mkManager {
  _stateMgr : StateManager;
  _deviceConnected : bool;
  _automaticEarDetection : bool;
  _deviceName : string
}.

Section Core.

Context `{Platform}.

Local Open Scope prog_scope.

(** ** Advertisement: recogniser and constructor *)

Definition IsDesiredAdv (data : ReceivedData.t) : bool :=
  match ReceivedData.manufacturerDataMap data !! VendorId with
  | None => false
  | Some manufacturerData =>
      if negb (IsValid manufacturerData) then false else true
  end.

(** [GetMfrData] asserts that the vendor entry is present. *)
Definition GetMfrData (data : ReceivedData.t) : Outcome (list byte) :=
  match ReceivedData.manufacturerDataMap data !! VendorId with
  | None => Fatal "iter != _data.manufacturerDataMap.end()"
  | Some d => Done d
  end.

(** [battery = battery.Value() * 10] when available: the product is
    converted back to [Battery::ValueType]. *)
Definition ScaleBattery (b : Battery) : Battery :=
  match b with
  | Some v => Some (Int.wrapU BatteryBits (v * 10))
  | None => None
  end.

(** The constructor [Advertisement::Advertisement(data)]. *)
Definition Advertisement_new (data : ReceivedData.t) : Outcome Advertisement :=
  if negb (IsDesiredAdv data) then Fatal "IsDesiredAdv(data)" else
  match GetMfrData data with
  | Fatal a => Fatal a
  | Done mfr =>
      match As mfr with
      | None => Fatal "protocol.has_value()"
      | Some protocol =>
          let left :=
            PodState.mk (Protocol.GetLeftBattery protocol)
              (Protocol.IsLeftCharging protocol)
              (Protocol.IsLeftInEar protocol) in
          let right :=
            PodState.mk (Protocol.GetRightBattery protocol)
              (Protocol.IsRightCharging protocol)
              (Protocol.IsRightInEar protocol) in
          let caseBox :=
            CaseState.mk (Protocol.GetCaseBattery protocol)
              (Protocol.IsCaseCharging protocol)
              (Protocol.IsBothPodsInCase protocol)
              (Protocol.IsLidOpened protocol) in
          let left :=
            PodState.mk (ScaleBattery (PodState.battery left))
              (PodState.isCharging left) (PodState.isInEar left) in
          let right :=
            PodState.mk (ScaleBattery (PodState.battery right))
              (PodState.isCharging right) (PodState.isInEar right) in
          let caseBox :=
            CaseState.mk (ScaleBattery (CaseState.battery caseBox))
              (CaseState.isCharging caseBox)
              (CaseState.isBothPodsInCase caseBox)
              (CaseState.isLidOpened caseBox) in
          Done (mkAdvertisement data protocol
                  (AdvState.mk (Protocol.GetModel protocol)
                     (Protocol.GetBroadcastedSide protocol)
                     (Sides.mk left right) caseBox))
      end
  end.

(** ** StateManager *)

(** The constructor starts the three timers with a ten-second interval and
    binds each to its callback.  [now] is the instant of construction and
    [rssiMin] the member's initial value (set in the header). *)
Definition StateManager_new (now : Timestamp) (rssiMin : Z) : StateManager :=
  mkStateManager (Sides.mk None None) None rssiMin
    (Timer.Start 10 Timer.CbDoLost now)
    (Sides.mk (Timer.Start 10 (Timer.CbDoStateReset Left) now)
       (Timer.Start 10 (Timer.CbDoStateReset Right) now)).

Definition GetCurrentState : Prog StateManager (option State.t) :=
  let* s := get in ret (_cachedState s).

Definition OnRssiMinChanged (rssiMin : Z) : Prog StateManager unit :=
  modify (with_rssiMin rssiMin).

(** [std::abs] of the difference of the two values cast to the signed
    counterpart of [Battery::ValueType], stored in a [Battery::ValueType];
    zero unless both batteries are available.  (Where the signed
    subtraction would overflow, which C++ leaves undefined, the exact
    difference is used.) *)
Definition BatteryDiff (new old : Battery) : Z :=
  match new, old with
  | Some n, Some o =>
      Int.wrapU BatteryBits
        (Z.abs (Int.wrapS BatteryBits n - Int.wrapS BatteryBits o))
  | _, _ => 0
  end.

(** The plausibility filter.  It is a [const] method: it reads the caches
    and the floor and only logs.  [anotherSide] is the code after the
    address-change block, reached when the block is skipped or falls
    through. *)
Definition IsPossibleDesiredAdv (adv : Advertisement)
  : Prog StateManager bool :=
  let* s := get in
  let advRssi := GetRssi adv in
  if advRssi <? _rssiMin s then
    emit (LOG Warn
      "IsPossibleDesiredAdv returns false. Reason: RSSI is less than the limit. curr: '{}' min: '{}'")
    >> ret false
  else
  let advState := GetAdvState adv in
  let lastAdv :=
    if bool_decide (AdvState.side advState = Left)
    then Sides.left (_adv s) else Sides.right (_adv s) in
  let lastAnotherAdv :=
    if bool_decide (AdvState.side advState = Left)
    then Sides.right (_adv s) else Sides.left (_adv s) in
  let anotherSide : Prog StateManager bool :=
    match lastAnotherAdv with
    | Some (another, _) =>
        let rssiDiff := Int.absdiff16 advRssi (GetRssi another) in
        if rssiDiff >? 50 then
          emit (LOG Warn
            "IsPossibleDesiredAdv returns false. Reason: Another side rssiDiff '{}'")
          >> ret false
        else ret true
    | None => ret true
    end in
  match lastAdv with
  | Some (last, _) =>
      if negb (bool_decide (GetAddress last = GetAddress adv)) then
        let lastAdvState := GetAdvState last in
        if negb (bool_decide
                   (AdvState.model advState = AdvState.model lastAdvState))
        then
          emit (LOG Warn
            "IsPossibleDesiredAdv returns false. Reason: model new='{}' old='{}'")
          >> ret false
        else
        let leftBatteryDiff :=
          BatteryDiff
            (PodState.battery (Sides.left (AdvState.pods advState)))
            (PodState.battery (Sides.left (AdvState.pods lastAdvState))) in
        let rightBatteryDiff :=
          BatteryDiff
            (PodState.battery (Sides.right (AdvState.pods advState)))
            (PodState.battery (Sides.right (AdvState.pods lastAdvState))) in
        let caseBatteryDiff :=
          BatteryDiff
            (CaseState.battery (AdvState.caseBox advState))
            (CaseState.battery (AdvState.caseBox lastAdvState)) in
        if (leftBatteryDiff >? 1) || (rightBatteryDiff >? 1)
           || (caseBatteryDiff >? 1)
        then
          emit (LOG Warn
            "IsPossibleDesiredAdv returns false. Reason: BatteryDiff l='{}' r='{}' c='{}'")
          >> ret false
        else
        let rssiDiff := Int.absdiff16 advRssi (GetRssi last) in
        if rssiDiff >? 50 then
          emit (LOG Warn
            "IsPossibleDesiredAdv returns false. Reason: Current side rssiDiff '{}'")
          >> ret false
        else
        emit (LOG Warn
          "Address changed, but it might still be the same device.")
        >> anotherSide
      else anotherSide
  | None => anotherSide
  end.

(** [now] is the value [Clock::now()] returns in this call. *)
Definition UpdateAdv (adv : Advertisement) (now : Timestamp)
  : Prog StateManager unit :=
  modify (with_lostTimer (Timer.Reset now)) >>
  let advState := GetAdvState adv in
  match AdvState.side advState with
  | Left =>
      modify (with_stateResetTimer
                (fun t => set_left (Timer.Reset now (Sides.left t)) t)) >>
      modify (with_adv (set_left (Some (adv, now))))
  | Right =>
      modify (with_stateResetTimer
                (fun t => set_right (Timer.Reset now (Sides.right t)) t)) >>
      modify (with_adv (set_right (Some (adv, now))))
  end.

(** The local [cachedAdvState] of [UpdateState]: a side without a cached
    advertisement keeps the value-initialised pair. *)
Definition CachedAdvState (adv : Sides.t (option (Advertisement * Timestamp)))
  : Sides.t (AdvState.t * Timestamp) :=
  let snapshot (c : option (Advertisement * Timestamp)) :=
    match c with
    | Some (a, t) => (GetAdvState a, t)
    | None => (AdvState_default, Timestamp_default)
    end in
  Sides.mk (snapshot (Sides.left adv)) (snapshot (Sides.right adv)).

(** The macro [PICK_SIDE], with the availability condition as a function. *)
Definition PICK_SIDE (available_condition : AdvState.t -> bool)
  (cachedAdvState : Sides.t (AdvState.t * Timestamp)) : AdvState.t :=
  let available :=
    Sides.mk (available_condition (fst (Sides.left cachedAdvState)))
      (available_condition (fst (Sides.right cachedAdvState))) in
  if Sides.left available && Sides.right available then
    if snd (Sides.left cachedAdvState) >? snd (Sides.right cachedAdvState)
    then fst (Sides.left cachedAdvState)
    else fst (Sides.right cachedAdvState)
  else
    if Sides.left available
    then fst (Sides.left cachedAdvState)
    else fst (Sides.right cachedAdvState).

Definition model_available (a : AdvState.t) : bool :=
  negb (bool_decide (AdvState.model a = Unknown)).

Definition left_available (a : AdvState.t) : bool :=
  Available (PodState.battery (Sides.left (AdvState.pods a))).

Definition right_available (a : AdvState.t) : bool :=
  Available (PodState.battery (Sides.right (AdvState.pods a))).

Definition case_available (a : AdvState.t) : bool :=
  Available (CaseState.battery (AdvState.caseBox a)).

(** The [newState] that [UpdateState] builds from the caches. *)
Definition MergedState (adv : Sides.t (option (Advertisement * Timestamp)))
  : State.t :=
  let cachedAdvState := CachedAdvState adv in
  State.mk
    (AdvState.model (PICK_SIDE model_available cachedAdvState))
    (Sides.mk
       (Sides.left (AdvState.pods (PICK_SIDE left_available cachedAdvState)))
       (Sides.right
          (AdvState.pods (PICK_SIDE right_available cachedAdvState))))
    (AdvState.caseBox (PICK_SIDE case_available cachedAdvState))
    (State.displayName State_default).

Definition UpdateState : Prog StateManager (option UpdateEvent) :=
  let* s := get in
  let newState := MergedState (_adv s) in
  if State_equal newState (_cachedState s) then ret None else
  let oldState := _cachedState s in
  modify (with_cachedState (Some newState)) >>
  ret (Some (mkUpdateEvent oldState newState)).

Definition OnAdvReceived (adv : Advertisement) (now : Timestamp)
  : Prog StateManager (option UpdateEvent) :=
  let* possible := IsPossibleDesiredAdv adv in
  if negb possible then
    emit (LOG Warn "This adv may not be broadcast from the device we desire.")
    >> ret None
  else
    UpdateAdv adv now >> UpdateState.

Definition ResetAll : Prog StateManager unit :=
  let* s := get in
  (if has_value (_cachedState s) then emit DisconnectSafely else ret tt) >>
  modify (with_adv (set_left None)) >>
  modify (with_adv (set_right None)) >>
  modify (with_cachedState None).

Definition Disconnect : Prog StateManager unit :=
  emit (LOG Info "StateManager: Disconnect.") >> ResetAll.

Definition DoLost : Prog StateManager unit :=
  let* s := get in
  (if has_value (_cachedState s)
   then emit (LOG Info "StateManager: Device is lost.") else ret tt) >>
  ResetAll.

Definition DoStateReset (side : Side) : Prog StateManager unit :=
  let* s := get in
  let adv :=
    if bool_decide (side = Left)
    then Sides.left (_adv s) else Sides.right (_adv s) in
  if has_value adv then
    emit (LOG Info "StateManager: DoStateReset called. Side: {}") >>
    modify (with_adv (if bool_decide (side = Left)
                      then set_left None else set_right None))
  else ret tt.

(** A timer fires: its callback runs (under the lock). *)
Definition Fire (tm : Timer.t) : Prog StateManager unit :=
  match Timer.callback tm with
  | Timer.CbDoLost => DoLost
  | Timer.CbDoStateReset side => DoStateReset side
  end.

(** *** The engine as a state machine

    What can happen to a [StateManager] after construction, and what a
    caller observes of it: the event returned (only [OnAdvReceived] returns
    one) and the trace. *)
Inductive Input :=
| AdvReceived (adv : Advertisement) (now : Timestamp)
| LostTimerFired
| ResetTimerFired (side : Side)
| Disconnected
| RssiMinChanged (rssiMin : Z).

Definition no_event {A} (p : Prog StateManager A)
  : Prog StateManager (option UpdateEvent) :=
  p >> ret None.

Definition step (i : Input) : Prog StateManager (option UpdateEvent) :=
  match i with
  | AdvReceived adv now => OnAdvReceived adv now
  | LostTimerFired => let* s := get in no_event (Fire (_lostTimer s))
  | ResetTimerFired Left =>
      let* s := get in no_event (Fire (Sides.left (_stateResetTimer s)))
  | ResetTimerFired Right =>
      let* s := get in no_event (Fire (Sides.right (_stateResetTimer s)))
  | Disconnected => no_event Disconnect
  | RssiMinChanged r => no_event (OnRssiMinChanged r)
  end.

(** Running a sequence of inputs; the events returned, in order, and the
    whole trace. *)
Fixpoint run (inputs : list Input) (s : StateManager)
  : list UpdateEvent * StateManager * list Effect :=
  match inputs with
  | [] => ([], s, [])
  | i :: rest =>
      let '(ev, s1, e1) := step i s in
      let '(evs, s2, e2) := run rest s1 in
      (match ev with Some e => e :: evs | None => evs end, s2, e1 ++ e2)
  end.

(** ** Manager *)

Definition with_stateMgr (sm : StateManager) (m : Manager) : Manager :=
  mkManager sm (_deviceConnected m) (_automaticEarDetection m) (_deviceName m).

Definition with_deviceName (n : string) (m : Manager) : Manager :=
  mkManager (_stateMgr m) (_deviceConnected m) (_automaticEarDetection m) n.

(** A call on the member [_stateMgr]. *)
Definition onStateMgr {A} (p : Prog StateManager A) : Prog Manager A :=
  fun m =>
    let '(a, sm, e) := p (_stateMgr m) in (a, with_stateMgr sm m, e).

Definition OnLidOpened (opened : bool) : Prog Manager unit :=
  if opened then emit ShowSafely else emit HideSafely.

Definition OnBothInEar (isBothInEar : bool) : Prog Manager unit :=
  let* m := get in
  if negb (_automaticEarDetection m) then
    emit (LOG Info
      "automatic_ear_detection: Do nothing because it is disabled. ({})")
  else
    if isBothInEar then emit GlobalMedia_Play else emit GlobalMedia_Pause.

Definition isEmpty (q : string) : bool :=
  match q with EmptyString => true | String _ _ => false end.

Definition with_displayName (n : string) (st : State.t) : State.t :=
  State.mk (State.model st) (State.pods st) (State.caseBox st) n.

Definition lidOpenedAndBothInCase (st : State.t) : bool :=
  CaseState.isLidOpened (State.caseBox st)
  && CaseState.isBothPodsInCase (State.caseBox st).

Definition bothInEar (st : State.t) : bool :=
  PodState.isInEar (Sides.left (State.pods st))
  && PodState.isInEar (Sides.right (State.pods st)).

(** [QString::remove] edits [_deviceName] in place and returns it. *)
Definition OnStateChanged (updateEvent : UpdateEvent) : Prog Manager unit :=
  let oldState := oldState updateEvent in
  let* m := get in
  let* displayName :=
    (if isEmpty (_deviceName m)
     then ret (ToString (State.model (newState updateEvent)))
     else
       let removed := QString_remove (_deviceName m) " - Find My" in
       modify (with_deviceName removed) >> ret removed) in
  let newState := with_displayName displayName (newState updateEvent) in
  emit (UpdateStateSafely newState) >>
  let newLidOpened := lidOpenedAndBothInCase newState in
  let lidStateSwitched :=
    match oldState with
    | None => newLidOpened
    | Some old => negb (eqb (lidOpenedAndBothInCase old) newLidOpened)
    end in
  (if lidStateSwitched then OnLidOpened newLidOpened else ret tt) >>
  match oldState with
  | Some old =>
      let oldBothInEar := bothInEar old in
      let newBothInEar := bothInEar newState in
      if negb (eqb oldBothInEar newBothInEar)
      then OnBothInEar newBothInEar else ret tt
  | None => ret tt
  end.

Definition Manager_OnRssiMinChanged (rssiMin : Z) : Prog Manager unit :=
  onStateMgr (OnRssiMinChanged rssiMin).

Definition OnAutomaticEarDetectionChanged (enable : bool) : Prog Manager unit :=
  modify (fun m =>
            mkManager (_stateMgr m) (_deviceConnected m) enable (_deviceName m)).

(** [connected] is [state == Bluetooth::DeviceState::Connected]. *)
Definition OnBoundDeviceConnectionStateChanged (connected : bool)
  : Prog Manager unit :=
  let* m := get in
  let newDeviceConnected := connected in
  let doDisconnect := _deviceConnected m && negb newDeviceConnected in
  modify (fun m =>
            mkManager (_stateMgr m) newDeviceConnected
              (_automaticEarDetection m) (_deviceName m)) >>
  (if doDisconnect then
     emit (LOG Info "[OnBoundDeviceConnectionStateChanged] doDisconnect") >>
     onStateMgr Disconnect
   else ret tt) >>
  emit (LOG Info "The device we bound is updated. current: {}, new: {}").

(** [Manager::OnAdvertisementReceived].  The constructor of
    [Advertisement] runs twice on [data] (for the trace line, then for the
    call into the state manager) and may fail an assertion each time. *)
Definition OnAdvertisementReceived (data : ReceivedData.t) (now : Timestamp)
  (m : Manager) : Outcome (bool * Manager * list Effect) :=
  if negb (IsDesiredAdv data) then Done (ret false m) else
  match Advertisement_new data with
  | Fatal a => Fatal a
  | Done adv =>
      let trace :=
        LOG Trace
          "AirPods advertisement received. Data: {}, Address Hash: {}, RSSI: {}" in
      if negb (_deviceConnected m) then
        Done ((emit trace >>
               emit (LOG Info
                 "AirPods advertisement received, but device disconnected.")
               >> ret false) m)
      else
        match Advertisement_new data with
        | Fatal a => Fatal a
        | Done adv' =>
            Done ((emit trace >>
                   let* optUpdateEvent := onStateMgr (OnAdvReceived adv' now) in
                   (match optUpdateEvent with
                    | Some ev => OnStateChanged ev
                    | None => ret tt
                    end) >>
                   ret true) m)
        end
  end.

End Core.

(** ** Devices: binding and listing *)

(** [Bluetooth::DeviceState]: the enumeration is declared in [Bluetooth.h];
    this file names its enumerators [Connected] and [Paired], any other is
    represented by its numeric tag. *)
Inductive DeviceState := Connected | Paired | OtherState (tag : N).

#[global] Instance DeviceState_eq_dec : EqDecision DeviceState.
Proof. solve_decision. Defined.

(** [Bluetooth::Device], by what the accessors this file calls return. *)
Module Device.
Record t := mk {
  GetName : string;
  GetConnectionState : DeviceState;
  GetVendorId : Z;
  GetProductId : Z
}.
End Device.

(** [Manager] with the member [_boundDevice], which only
    [OnBoundDeviceAddressChanged] reads and writes. *)
Record BoundManager := mkBoundManager {
  _manager : Manager;
  _boundDevice : option Device.t
}.

Definition with_boundDevice (d : option Device.t) (b : BoundManager)
  : BoundManager :=
  mkBoundManager (_manager b) d.

Definition with_deviceConnected (c : bool) (m : Manager) : Manager :=
  mkManager (_stateMgr m) c (_automaticEarDetection m) (_deviceName m).

(** A call on the other members of the manager. *)
Definition onManager {A} (p : Prog Manager A) : Prog BoundManager A :=
  fun b =>
    let '(a, m, e) := p (_manager b) in
    (a, mkBoundManager m (_boundDevice b), e).

(** [name.find(pattern) != std::string::npos] *)
Definition found_in (pattern name : string) : bool :=
  match String.index 0 pattern name with
  | Some _ => true
  | None => false
  end.

Section Devices.

Context `{Platform}.

(** [AppleCP::AirPods::GetModel(productId)], from the protocol layer. *)
Variable AppleCP_GetModel : Z -> Model.

Local Open Scope prog_scope.

(** [Manager::OnBoundDeviceAddressChanged].  [FindDevice] is the device
    directory ([Bluetooth::DeviceManager::FindDevice]) at the time of the
    call.  The callback added to the found device's
    [CbConnectionStatusChanged] calls
    [OnBoundDeviceConnectionStateChanged]; later changes arrive as calls of
    that method. *)
Definition OnBoundDeviceAddressChanged
  (FindDevice : Z -> option Device.t) (address : Z)
  : Prog BoundManager unit :=
  modify (with_boundDevice None) >>
  onManager (modify (with_deviceConnected false)) >>
  onManager (onStateMgr Disconnect) >>
  if address =? 0 then emit (LOG Info "Unbind device.") else
  emit (LOG Info "Bind a new device.") >>
  let optDevice := FindDevice address in
  match optDevice with
  | None => emit (LOG Error "Find device by address failed.")
  | Some device =>
      modify (with_boundDevice (Some device)) >>
      onManager
        (modify (with_deviceName
                   (let name := Device.GetName device in
                    if found_in "Bluetooth" name then EmptyString else name)))
      >>
      onManager
        (OnBoundDeviceConnectionStateChanged
           (bool_decide (Device.GetConnectionState device = Connected))) >>
      emit (LOG Info "[OnBoundDeviceAddressChanged] bound _deviceName: {}")
  end.

(** The predicate [GetDevices] gives to [std::remove_if]; it logs one trace
    line per device. *)
Definition doErase (device : Device.t) : Prog unit bool :=
  let vendorId := Device.GetVendorId device in
  let productId := Device.GetProductId device in
  let doErase :=
    negb (bool_decide (vendorId = VendorId))
    || bool_decide (AppleCP_GetModel productId = Unknown) in
  emit (LOG Trace "Device VendorId: '{}', ProductId: '{}', doErase: {}") >>
  ret doErase.

(** [devices.erase(std::remove_if(begin, end, pred), end)]: the predicate
    runs once on every element, in order; the elements it rejects are
    kept, in order. *)
Fixpoint erase_remove_if (pred : Device.t -> Prog unit bool)
  (devices : list Device.t) : Prog unit (list Device.t) :=
  match devices with
  | [] => ret []
  | device :: rest =>
      let* erase := pred device in
      let* kept := erase_remove_if pred rest in
      ret (if erase then kept else device :: kept)
  end.

(** [GetDevices]; [paired] is what
    [Bluetooth::DeviceManager::GetDevicesByState(Paired)] returns. *)
Definition GetDevices (paired : list Device.t) : Prog unit (list Device.t) :=
  let devices := paired in
  emit (LOG Info "Paired devices count: {}") >>
  let* devices := erase_remove_if doErase devices in
  emit (LOG Info "AirPods devices count: {} (filtered)") >>
  ret devices.

End Devices.

(** ** A concrete platform and concrete records

    A stand-in for the protocol layer and the Qt string routine, so that
    the development can be run on explicit broadcast records.  The payload
    of the stand-in has six bytes: model tag, side, the three raw battery
    fields (0 to 10, anything else is the unavailable sentinel) and a flag
    byte. *)
Module Sample.

Definition battery_of_raw (raw : byte) : Battery :=
  let v := Z.of_N (Byte.to_N raw) in
  if v <=? 10 then Some v else None.

Definition flag (n : N) (b : byte) : bool := N.testbit (Byte.to_N b) n.

Definition parse (d : list byte) : option Protocol.t :=
  match d with
  | [m; sd; l; r; c; f] =>
      Some (Protocol.mk
              (match Byte.to_N m with 0%N => Unknown | tag => Known tag end)
              (match Byte.to_N sd with 0%N => Left | _ => Right end)
              (battery_of_raw l) (flag 0 f) (flag 3 f)
              (battery_of_raw r) (flag 1 f) (flag 4 f)
              (battery_of_raw c) (flag 2 f) (flag 5 f) (flag 6 f))
  | _ => None
  end.

Definition valid (d : list byte) : bool := (length d =? 6)%nat.

Fixpoint drop (n : nat) (s : string) : string :=
  match n, s with
  | O, _ => s
  | S n', String _ s' => drop n' s'
  | S _, EmptyString => EmptyString
  end.

Fixpoint remove_from (fuel : nat) (pat s : string) : string :=
  match fuel with
  | O => s
  | S fuel' =>
      match s with
      | EmptyString => EmptyString
      | String c s' =>
          if String.prefix pat s
          then remove_from fuel' pat (drop (String.length pat) s)
          else String c (remove_from fuel' pat s')
      end
  end.

(** Every occurrence of [pat] removed from [s]. *)
Definition remove (s pat : string) : string :=
  remove_from (S (String.length s)) pat s.

Definition model_name (m : Model) : string :=
  match m with
  | Unknown => "Unknown"
  | Known _ => "AirPods"
  end.

Lemma bits_min : 8 <= 32.
Proof. lia. Qed.

Lemma parse_valid : As_parses_valid valid parse.
Proof.
  intros d Hd. unfold valid in Hd. apply Nat.eqb_eq in Hd.
  do 6 (destruct d as [|? d]; [discriminate Hd|]).
  destruct d; [|discriminate Hd]. eexists. reflexivity.
Qed.

Definition platform : Platform :=
  {| BatteryBits := 32;
     BatteryBits_min := bits_min;
     VendorId := 76;
     IsValid := valid;
     As := parse;
     As_IsValid := parse_valid;
     ToString := model_name;
     QString_remove := remove |}.

(** A broadcast record carrying [payload] under the vendor identifier. *)
Definition record (address rssi : Z) (payload : list byte) : ReceivedData.t :=
  ReceivedData.mk rssi 0 address {[ 76 := payload ]}.

(** The advertisement decoded from a record ([Advertisement_new] below
    returns it), with the model tag 1 and nothing charging. *)
Definition advert (address rssi : Z) (sd : Side) (l r c : byte) (f : byte)
  : Advertisement :=
  let payload := [x01; match sd with Left => x00 | Right => x01 end; l; r; c; f] in
  let scaled raw := option_map (fun v => v * 10) (battery_of_raw raw) in
  mkAdvertisement (record address rssi payload)
    (Protocol.mk (Known 1) sd
       (battery_of_raw l) (flag 0 f) (flag 3 f)
       (battery_of_raw r) (flag 1 f) (flag 4 f)
       (battery_of_raw c) (flag 2 f) (flag 5 f) (flag 6 f))
    (AdvState.mk (Known 1) sd
       (Sides.mk (PodState.mk (scaled l) (flag 0 f) (flag 3 f))
          (PodState.mk (scaled r) (flag 1 f) (flag 4 f)))
       (CaseState.mk (scaled c) (flag 2 f) (flag 5 f) (flag 6 f))).

(** A manager state around a given engine state. *)
Definition manager (connected : bool) (sm : StateManager) : Manager :=
  mkManager sm connected true "AirPods Pro - Find My".

(** The engine as constructed at instant 0 with the floor at -100, and the
    engine after a sequence of inputs. *)
Definition fresh : StateManager := StateManager_new 0 (-100).

Definition after (inputs : list Input) : StateManager :=
  final (@run platform inputs fresh).

(** Left and right packets of one device: 70%, 80%, case 50%. *)
Definition left_50 : Advertisement := advert 100 (-50) Left x07 x08 x05 x00.
Definition right_95 : Advertisement := advert 200 (-95) Right x07 x08 x05 x00.

(** The left packet again from a rotated address, a little closer. *)
Definition left_40_rotated : Advertisement :=
  advert 101 (-40) Left x07 x08 x05 x00.

(** A right packet that reports no case battery, at -50. *)
Definition right_no_case : Advertisement :=
  advert 200 (-50) Right x07 x08 x0f x00.

(** A left packet with the left pod in the ear, at -52. *)
Definition left_in_ear : Advertisement :=
  advert 100 (-52) Left x07 x08 x05 x08.

(** A recognised broadcast record: the payload of [left_in_ear] with the
    case battery at the sentinel. *)
Definition raw_record : ReceivedData.t :=
  record 100 (-52) [x01; x00; x07; x08; x0f; x08].

(** The advertisement that [raw_record] decodes to. *)
Definition raw_advert : Advertisement := advert 100 (-52) Left x07 x08 x0f x08.

(** The left packet from a rotated address with the left pod one step down
    (60%). *)
Definition left_50_rotated_60 : Advertisement :=
  advert 101 (-50) Left x06 x08 x05 x00.

End Sample.

(** Devices and a directory for the binding and listing functions. *)
Module Scenario.

Definition pods : Device.t := Device.mk "AirPods Pro" Connected 76 8206.

Definition generic : Device.t :=
  Device.mk "Bluetooth 5c:f3:70" Paired 76 8206.

Definition headset : Device.t := Device.mk "Headset" Paired 1133 2.

(** The directory: [pods] at address 100, [generic] at address 7. *)
Definition directory (address : Z) : option Device.t :=
  if address =? 100 then Some pods
  else if address =? 7 then Some generic else None.

(** Product 8206 is a known model, every other product is not. *)
Definition model_of (productId : Z) : Model :=
  if productId =? 8206 then Known 1 else Unknown.

(** A bound manager with nothing bound yet. *)
Definition unbound (m : Manager) : BoundManager := mkBoundManager m None.

(** The record of [Sample.raw_record] as another device's scan would
    report it: another address, weaker signal and a second vendor's
    entry. *)
Definition raw_record_elsewhere : ReceivedData.t :=
  ReceivedData.mk (-70) 9 555
    (<[ 6 := [x00; x01] ]> {[ 76 := [x01; x00; x07; x08; x0f; x08] ]}).

End Scenario.

(** * Vocabulary of the properties *)

Definition opposite (sd : Side) : Side :=
  match sd with Left => Right | Right => Left end.

(** The cache entry of one side. *)
Definition cache (sd : Side) (s : StateManager)
  : option (Advertisement * Timestamp) :=
  match sd with
  | Left => Sides.left (_adv s)
  | Right => Sides.right (_adv s)
  end.

Definition advSide (adv : Advertisement) : Side :=
  AdvState.side (GetAdvState adv).

Definition is_log (e : Effect) : Prop :=
  match e with LOG _ _ => True | _ => False end.

Definition is_warning (e : Effect) : Prop :=
  match e with LOG Warn _ => True | _ => False end.

Section Vocabulary.

Context `{Platform}.

Definition floor_ok (s : StateManager) (adv : Advertisement) : bool :=
  negb (GetRssi adv <? _rssiMin s).

Definition batteries_ok (new old : AdvState.t) : bool :=
  negb ((BatteryDiff
           (PodState.battery (Sides.left (AdvState.pods new)))
           (PodState.battery (Sides.left (AdvState.pods old))) >? 1)
        || (BatteryDiff
              (PodState.battery (Sides.right (AdvState.pods new)))
              (PodState.battery (Sides.right (AdvState.pods old))) >? 1)
        || (BatteryDiff
              (CaseState.battery (AdvState.caseBox new))
              (CaseState.battery (AdvState.caseBox old)) >? 1)).

Definition same_side_ok (s : StateManager) (adv : Advertisement) : bool :=
  match cache (advSide adv) s with
  | Some (last, _) =>
      if bool_decide (GetAddress last = GetAddress adv) then true
      else
        bool_decide (AdvState.model (GetAdvState adv)
                     = AdvState.model (GetAdvState last))
        && batteries_ok (GetAdvState adv) (GetAdvState last)
        && negb (Int.absdiff16 (GetRssi adv) (GetRssi last) >? 50)
  | None => true
  end.

Definition other_side_ok (s : StateManager) (adv : Advertisement) : bool :=
  match cache (opposite (advSide adv)) s with
  | Some (another, _) =>
      negb (Int.absdiff16 (GetRssi adv) (GetRssi another) >? 50)
  | None => true
  end.

(** Both packets report the field and the stored value is the same. *)
Definition battery_unchanged (new old : Battery) : Prop :=
  match new, old with
  | Some n, Some o => n = o
  | _, _ => True
  end.

(** Both packets report the field and the stored percentages are at most
    one 10%-step apart. *)
Definition battery_one_step (new old : Battery) : Prop :=
  match new, old with
  | Some n, Some o => Z.abs (n - o) <= 10
  | _, _ => True
  end.

(** The three battery fields of two snapshots, related by [R]. *)
Definition batteries (R : Battery -> Battery -> Prop) (new old : AdvState.t)
  : Prop :=
  R (PodState.battery (Sides.left (AdvState.pods new)))
    (PodState.battery (Sides.left (AdvState.pods old)))
  /\ R (PodState.battery (Sides.right (AdvState.pods new)))
       (PodState.battery (Sides.right (AdvState.pods old)))
  /\ R (CaseState.battery (AdvState.caseBox new))
       (CaseState.battery (AdvState.caseBox old)).

(** The opposite side is not cached, or its RSSI is within 50. *)
Definition other_side_near (s : StateManager) (adv : Advertisement) : Prop :=
  match cache (opposite (advSide adv)) s with
  | Some (another, _) => Z.abs (GetRssi adv - GetRssi another) <= 50
  | None => True
  end.

(** The acceptance rule for a rotated address as the design document words
    it: floor passed, same-side entry with another address, same model,
    same-side RSSI within 50 and every commonly reported battery within
    one 10%-step imply acceptance. *)
Definition rotated_address_rule_as_stated
  (s : StateManager) (adv : Advertisement) : Prop :=
  forall last t,
    _rssiMin s <= GetRssi adv ->
    cache (advSide adv) s = Some (last, t) ->
    GetAddress last <> GetAddress adv ->
    AdvState.model (GetAdvState adv) = AdvState.model (GetAdvState last) ->
    Z.abs (GetRssi adv - GetRssi last) <= 50 ->
    batteries battery_one_step (GetAdvState adv) (GetAdvState last) ->
    result (IsPossibleDesiredAdv adv s) = true.

Inductive Group := GModel | GLeftPod | GRightPod | GCaseBox.

(** The availability condition [UpdateState] passes to [PICK_SIDE] for a
    group. *)
Definition usable (g : Group) : AdvState.t -> bool :=
  match g with
  | GModel => model_available
  | GLeftPod => left_available
  | GRightPod => right_available
  | GCaseBox => case_available
  end.

(** A side cache carries a usable value for a group. *)
Definition carries (g : Group) (c : option (Advertisement * Timestamp)) : bool :=
  match c with
  | Some (a, _) => usable g (GetAdvState a)
  | None => false
  end.

(** The merged state has the group of snapshot [a]. *)
Definition taken_from (g : Group) (st : State.t) (a : AdvState.t) : Prop :=
  match g with
  | GModel => State.model st = AdvState.model a
  | GLeftPod => Sides.left (State.pods st) = Sides.left (AdvState.pods a)
  | GRightPod => Sides.right (State.pods st) = Sides.right (AdvState.pods a)
  | GCaseBox => State.caseBox st = AdvState.caseBox a
  end.

(** The group is unavailable in the merged state: unknown model, or no
    battery value. *)
Definition unavailable (g : Group) (st : State.t) : Prop :=
  match g with
  | GModel => State.model st = Unknown
  | GLeftPod => PodState.battery (Sides.left (State.pods st)) = None
  | GRightPod => PodState.battery (Sides.right (State.pods st)) = None
  | GCaseBox => CaseState.battery (State.caseBox st) = None
  end.

(** The engine state once [UpdateAdv] has stored [adv] at instant [now]. *)
Definition stored (adv : Advertisement) (now : Timestamp) (s : StateManager)
  : StateManager :=
  final (UpdateAdv adv now s).

(** Receipt times as a clock that never runs backwards gives them: the
    opposite side was cached no later than [now], and strictly earlier when
    the packet comes from the left side (on a tie the merge prefers the
    right side, so a left packet gains nothing until it is strictly
    later). *)
Definition received_after (sd : Side) (now : Timestamp)
  (other : option (Advertisement * Timestamp)) : Prop :=
  match other with
  | None => True
  | Some (_, t) =>
      match sd with
      | Left => t < now
      | Right => t <= now
      end
  end.

(** Idempotence as the design document words it: an accepted packet that
    produced an event, submitted again (no earlier than the first time), is
    accepted again, returns no event and leaves the canonical state. *)
Definition repeat_is_silent_as_stated
  (s : StateManager) (adv : Advertisement) (now1 now2 : Timestamp) : Prop :=
  result (IsPossibleDesiredAdv adv s) = true ->
  result (OnAdvReceived adv now1 s) <> None ->
  now1 <= now2 ->
  let s1 := final (OnAdvReceived adv now1 s) in
  result (IsPossibleDesiredAdv adv s1) = true
  /\ result (OnAdvReceived adv now2 s1) = None
  /\ _cachedState (final (OnAdvReceived adv now2 s1)) = _cachedState s1.

(** The timers are as the constructor started them: ten seconds each, the
    lost timer bound to [DoLost] and each reset timer to [DoStateReset] of
    its side. *)
Definition wired (s : StateManager) : Prop :=
  Timer.interval (_lostTimer s) = 10
  /\ Timer.callback (_lostTimer s) = Timer.CbDoLost
  /\ Timer.interval (Sides.left (_stateResetTimer s)) = 10
  /\ Timer.callback (Sides.left (_stateResetTimer s))
     = Timer.CbDoStateReset Left
  /\ Timer.interval (Sides.right (_stateResetTimer s)) = 10
  /\ Timer.callback (Sides.right (_stateResetTimer s))
     = Timer.CbDoStateReset Right.

(** The engine with both caches and the canonical state cleared. *)
Definition cleared (s : StateManager) : StateManager :=
  mkStateManager (Sides.mk None None) None (_rssiMin s) (_lostTimer s)
    (_stateResetTimer s).

(** The engine with one side's cache cleared. *)
Definition expired (sd : Side) (s : StateManager) : StateManager :=
  match sd with
  | Left => with_adv (set_left None) s
  | Right => with_adv (set_right None) s
  end.

(** No operation rebinds a timer or changes its interval. *)
Definition wiring (s : StateManager)
  : (Z * Timer.Callback) * (Z * Timer.Callback) * (Z * Timer.Callback) :=
  (Timer.interval (_lostTimer s), Timer.callback (_lostTimer s),
   (Timer.interval (Sides.left (_stateResetTimer s)),
    Timer.callback (Sides.left (_stateResetTimer s))),
   (Timer.interval (Sides.right (_stateResetTimer s)),
    Timer.callback (Sides.right (_stateResetTimer s)))).

(** Per-side expiry as the design document words it: the silent side's
    cache clears and, when the merge of what remains differs from the
    canonical state, the expiry produces an update event. *)
Definition expiry_emits_update_as_stated (sd : Side) (s : StateManager)
  : Prop :=
  let fired := step (ResetTimerFired sd) s in
  cache sd (final fired) = None
  /\ cache (opposite sd) (final fired) = cache (opposite sd) s
  /\ (Some (MergedState (_adv (final fired))) <> _cachedState s ->
      exists ev, result fired = Some ev).

(** A stored battery against the raw value the protocol accessor returned:
    a raw value in 0..10 is stored as ten times itself, an unavailable raw
    value stays unavailable. *)
Definition scaled_from (raw stored : Battery) : Prop :=
  match raw with
  | Some v => 0 <= v <= 10 -> stored = Some (v * 10)
  | None => stored = None
  end.

End Vocabulary.

(** * Vocabulary of the further properties *)

(** Values an [int16_t] holds. *)
Definition int16 (z : Z) : Prop := -32768 <= z <= 32767.

(** The raw battery values of a parsed payload are the protocol's 0..10
    where they are available. *)
Definition raw_in_range (p : Protocol.t) : Prop :=
  let ok (b : Battery) :=
    match b with Some v => 0 <= v <= 10 | None => True end in
  ok (Protocol.GetLeftBattery p) /\ ok (Protocol.GetRightBattery p)
  /\ ok (Protocol.GetCaseBattery p).

(** The conditions the engine keeps on its caches: an entry sits on the
    side that broadcast it, a cached entry comes with a canonical state,
    and two cached entries pass the RSSI rule against each other. *)
Definition caches_consistent (s : StateManager) : Prop :=
  (forall a t, cache Left s = Some (a, t) -> advSide a = Left)
  /\ (forall a t, cache Right s = Some (a, t) -> advSide a = Right)
  /\ (has_value (cache Left s) || has_value (cache Right s) = true ->
      has_value (_cachedState s) = true)
  /\ (forall aL tL aR tR,
        cache Left s = Some (aL, tL) -> cache Right s = Some (aR, tR) ->
        Int.absdiff16 (GetRssi aL) (GetRssi aR) <= 50).

(** The events of a list link up from the state [c]: each one starts from
    the state the one before it ended in. *)
Fixpoint chained (c : option State.t) (evs : list UpdateEvent) : Prop :=
  match evs with
  | [] => True
  | e :: rest => oldState e = c /\ chained (Some (newState e)) rest
  end.

(** The state the last event of a list ends in, [c] for no event. *)
Fixpoint last_state (c : option State.t) (evs : list UpdateEvent)
  : option State.t :=
  match evs with
  | [] => c
  | e :: rest => last_state (Some (newState e)) rest
  end.

(** Inputs that do not reset the whole engine. *)
Definition keeps_canonical (i : Input) : Prop :=
  match i with
  | LostTimerFired | Disconnected => False
  | _ => True
  end.

Definition is_disconnect (e : Effect) : bool :=
  match e with DisconnectSafely => true | _ => false end.

Definition is_media (e : Effect) : bool :=
  match e with GlobalMedia_Play | GlobalMedia_Pause => true | _ => false end.

Definition is_visibility (e : Effect) : bool :=
  match e with ShowSafely | HideSafely => true | _ => false end.

Definition is_update (e : Effect) : bool :=
  match e with UpdateStateSafely _ => true | _ => false end.

(** How often an effect of a kind occurs in a trace. *)
Definition count (kind : Effect -> bool) (trace : list Effect) : nat :=
  length (List.filter kind trace).

Definition b2n (b : bool) : nat := if b then 1%nat else 0%nat.

(** The whole snapshot of an advertisement as a merged state. *)
Definition State_of (a : AdvState.t) : State.t :=
  State.mk (AdvState.model a) (AdvState.pods a) (AdvState.caseBox a)
    EmptyString.

(** The reset timer of one side. *)
Definition reset_timer (sd : Side) (s : StateManager) : Timer.t :=
  match sd with
  | Left => Sides.left (_stateResetTimer s)
  | Right => Sides.right (_stateResetTimer s)
  end.

(** The callback an input runs when it is the firing of a timer. *)
Definition fired_callback (i : Input) (s : StateManager)
  : option Timer.Callback :=
  match i with
  | LostTimerFired => Some (Timer.callback (_lostTimer s))
  | ResetTimerFired sd => Some (Timer.callback (reset_timer sd s))
  | _ => None
  end.

(** One step, by what it does to the engine: a rejected advertisement, an
    accepted one, a full reset, the reset of one side, or a new floor. *)
Inductive step_kind `{Platform} (i : Input) (s : StateManager)
  : option UpdateEvent * StateManager * list Effect -> Prop :=
| StepRejected adv now log :
    i = AdvReceived adv now ->
    result (IsPossibleDesiredAdv adv s) = false ->
    Forall is_warning log ->
    step_kind i s (None, s, log)
| StepAccepted adv now log :
    i = AdvReceived adv now ->
    result (IsPossibleDesiredAdv adv s) = true ->
    Forall is_warning log ->
    step_kind i s (result (UpdateState (stored adv now s)),
                   final (UpdateState (stored adv now s)), log)
| StepCleared trace :
    i = Disconnected \/ fired_callback i s = Some Timer.CbDoLost ->
    count is_disconnect trace = b2n (has_value (_cachedState s)) ->
    step_kind i s (None, cleared s, trace)
| StepExpired sd :
    fired_callback i s = Some (Timer.CbDoStateReset sd) ->
    step_kind i s (None, final (DoStateReset sd s),
                   effects (DoStateReset sd s))
| StepFloor r :
    i = RssiMinChanged r ->
    step_kind i s (None, with_rssiMin r s, []).

(** An event reports a change, and carries no display name yet. *)
Definition event_reports_change (e : UpdateEvent) : Prop :=
  oldState e <> Some (newState e)
  /\ State.displayName (newState e) = EmptyString.

(** The show or hide call an event leads to: the lid counts as open when
    it is open with both pods in the case; an absent previous state counts
    as closed. *)
Definition visibility_calls (ev : UpdateEvent) : list Effect :=
  let opened := lidOpenedAndBothInCase (newState ev) in
  let before :=
    match oldState ev with
    | Some old => lidOpenedAndBothInCase old
    | None => false
    end in
  if eqb before opened then []
  else [if opened then ShowSafely else HideSafely].

(** The media call an event leads to. *)
Definition media_calls (enabled : bool) (ev : UpdateEvent) : list Effect :=
  match oldState ev with
  | Some old =>
      if enabled && negb (eqb (bothInEar old) (bothInEar (newState ev)))
      then [if bothInEar (newState ev)
            then GlobalMedia_Play else GlobalMedia_Pause]
      else []
  | None => []
  end.



(** The device a binding request resolves to. *)
Definition resolved (FindDevice : Z -> option Device.t) (address : Z)
  : option Device.t :=
  if address =? 0 then None else FindDevice address.

(** * Properties *)

Section Properties.

Context `{Platform}.

(** Unfolding of the method combinators. *)
Ltac prog :=
  unfold result, final, effects, bind, ret, get, put, modify, emit in *;
  simpl in *.

(** ** The plausibility filter, rule by rule *)

Lemma IsPossibleDesiredAdv_result (adv : Advertisement) (s : StateManager) :
  result (IsPossibleDesiredAdv adv s)
  = floor_ok s adv && same_side_ok s adv && other_side_ok s adv.
Proof.
  unfold IsPossibleDesiredAdv, floor_ok, same_side_ok, other_side_ok,
    batteries_ok, advSide, cache.
  prog.
  destruct (GetRssi adv <? _rssiMin s); simpl; [reflexivity|].
  destruct (AdvState.side (GetAdvState adv)); simpl;
    destruct (Sides.left (_adv s)) as [[l tl]|];
    destruct (Sides.right (_adv s)) as [[r tr]|]; simpl;
    repeat match goal with
      | |- context [bool_decide ?P] => destruct (bool_decide P); simpl
      | |- context [?a >? ?b] => destruct (a >? b); simpl
      end; reflexivity.
Qed.

Lemma IsPossibleDesiredAdv_final (adv : Advertisement) (s : StateManager) :
  final (IsPossibleDesiredAdv adv s) = s.
Proof.
  unfold IsPossibleDesiredAdv. prog.
  destruct (GetRssi adv <? _rssiMin s); simpl; [reflexivity|].
  destruct (AdvState.side (GetAdvState adv)); simpl;
    destruct (Sides.left (_adv s)) as [[l tl]|];
    destruct (Sides.right (_adv s)) as [[r tr]|]; simpl;
    repeat match goal with
      | |- context [bool_decide ?P] => destruct (bool_decide P); simpl
      | |- context [?a >? ?b] => destruct (a >? b); simpl
      end; reflexivity.
Qed.

Lemma IsPossibleDesiredAdv_effects (adv : Advertisement) (s : StateManager) :
  Forall is_warning (effects (IsPossibleDesiredAdv adv s)).
Proof.
  unfold IsPossibleDesiredAdv. prog.
  destruct (GetRssi adv <? _rssiMin s); simpl; [repeat constructor|].
  destruct (AdvState.side (GetAdvState adv)); simpl;
    destruct (Sides.left (_adv s)) as [[l tl]|];
    destruct (Sides.right (_adv s)) as [[r tr]|]; simpl;
    repeat match goal with
      | |- context [bool_decide ?P] => destruct (bool_decide P); simpl
      | |- context [?a >? ?b] => destruct (a >? b); simpl
      end; repeat constructor.
Qed.

(** The filter as one triple. *)
Lemma IsPossibleDesiredAdv_run (adv : Advertisement) (s : StateManager) :
  exists log,
    IsPossibleDesiredAdv adv s
    = (floor_ok s adv && same_side_ok s adv && other_side_ok s adv, s, log)
    /\ Forall is_warning log.
Proof.
  pose proof (IsPossibleDesiredAdv_result adv s) as Hr.
  pose proof (IsPossibleDesiredAdv_final adv s) as Hf.
  pose proof (IsPossibleDesiredAdv_effects adv s) as He.
  destruct (IsPossibleDesiredAdv adv s) as [[b s'] log].
  unfold result, final, effects in *. simpl in *. subst.
  exists log. split; [reflexivity | assumption].
Qed.

(** ** Arithmetic of the two differences *)

Lemma absdiff16_small (a b : Z) :
  Z.abs (a - b) < 32768 -> Int.absdiff16 a b = Z.abs (a - b).
Proof.
  intros Hlt. unfold Int.absdiff16, Int.wrapS.
  change (2 ^ (16 - 1)) with 32768. change (2 ^ 16) with 65536.
  rewrite Z.mod_small by lia. lia.
Qed.

Lemma BatteryDiff_same (v : Z) : BatteryDiff (Some v) (Some v) = 0.
Proof.
  unfold BatteryDiff, Int.wrapU. rewrite Z.sub_diag. simpl.
  apply Zmod_0_l.
Qed.

Lemma wrapU_small (z : Z) :
  0 <= z < 256 -> Int.wrapU BatteryBits z = z.
Proof.
  intros Hz. unfold Int.wrapU. apply Z.mod_small.
  pose proof BatteryBits_min as Hb.
  assert (2 ^ 8 <= 2 ^ BatteryBits) by (apply Z.pow_le_mono_r; lia).
  change (2 ^ 8) with 256 in *. lia.
Qed.

Lemma wrapS_small (z : Z) :
  0 <= z < 128 -> Int.wrapS BatteryBits z = z.
Proof.
  intros Hz. unfold Int.wrapS.
  pose proof BatteryBits_min as Hb.
  assert (2 ^ 7 <= 2 ^ (BatteryBits - 1)) by (apply Z.pow_le_mono_r; lia).
  assert (2 ^ BatteryBits = 2 * 2 ^ (BatteryBits - 1)) as Hd.
  { replace BatteryBits with (Z.succ (BatteryBits - 1)) at 1 by lia.
    apply Z.pow_succ_r. lia. }
  change (2 ^ 7) with 128 in *.
  rewrite Z.mod_small by lia. lia.
Qed.

(** On percentages the difference is the plain distance. *)
Lemma BatteryDiff_percent (n o : Z) :
  0 <= n <= 100 -> 0 <= o <= 100 ->
  BatteryDiff (Some n) (Some o) = Z.abs (n - o).
Proof.
  intros Hn Ho. unfold BatteryDiff.
  rewrite !wrapS_small by lia. apply wrapU_small. lia.
Qed.

(** On stored values, which are ten times the raw 0..10, the rule
    [BatteryDiff > 1] fires as soon as the two raw values differ. *)
Lemma BatteryDiff_scaled (a b : Z) :
  0 <= a <= 10 -> 0 <= b <= 10 ->
  (BatteryDiff (Some (a * 10)) (Some (b * 10)) >? 1) = negb (a =? b).
Proof.
  intros Ha Hb. rewrite BatteryDiff_percent by lia.
  destruct (Z.eqb_spec a b) as [->|Hne]; simpl.
  - rewrite Z.sub_diag. reflexivity.
  - apply Z.gtb_lt. lia.
Qed.

(** ** Rejected advertisements (C8) *)

(** A rejected advertisement: nothing but the filter's log and one more
    warning happens. *)
Lemma OnAdvReceived_rejected_run
  (adv : Advertisement) (now : Timestamp) (s : StateManager) :
  result (IsPossibleDesiredAdv adv s) = false ->
  exists log,
    OnAdvReceived adv now s = (None, s, log) /\ Forall is_warning log.
Proof.
  intros Hrej. rewrite IsPossibleDesiredAdv_result in Hrej.
  destruct (IsPossibleDesiredAdv_run adv s) as (log & Hrun & Hlog).
  unfold OnAdvReceived, bind. rewrite Hrun, Hrej. simpl.
  eexists. split; [reflexivity|].
  apply Forall_app. split; [assumption|]. repeat constructor.
Qed.

(** C8. An advertisement that the plausibility filter rejects makes
    [OnAdvReceived] return no event and leave the whole engine state as it
    was: the state record after the call (both side caches, the canonical
    state, the floor and the three timers) equals the one before.  The
    trace holds warnings only. *)
Theorem OnAdvReceived_rejected
  (adv : Advertisement) (now : Timestamp) (s : StateManager) :
  result (IsPossibleDesiredAdv adv s) = false ->
  result (OnAdvReceived adv now s) = None
  /\ final (OnAdvReceived adv now s) = s
  /\ _adv (final (OnAdvReceived adv now s)) = _adv s
  /\ _cachedState (final (OnAdvReceived adv now s)) = _cachedState s
  /\ _lostTimer (final (OnAdvReceived adv now s)) = _lostTimer s
  /\ _stateResetTimer (final (OnAdvReceived adv now s)) = _stateResetTimer s
  /\ Forall is_warning (effects (OnAdvReceived adv now s)).
Proof.
  intros Hrej.
  destruct (OnAdvReceived_rejected_run adv now s Hrej) as (log & -> & Hlog).
  repeat split. exact Hlog.
Qed.

(** ** A rotated address (C1) *)

Lemma batteries_unchanged_ok (new old : AdvState.t) :
  batteries battery_unchanged new old -> batteries_ok new old = true.
Proof.
  assert (forall a b, battery_unchanged a b -> BatteryDiff a b = 0) as Hz.
  { intros [a|] [b|] Hu; simpl in Hu; subst;
      [apply BatteryDiff_same | reflexivity ..]. }
  intros (Hl & Hr & Hc). unfold batteries_ok.
  rewrite (Hz _ _ Hl), (Hz _ _ Hr), (Hz _ _ Hc). reflexivity.
Qed.

(** C1 (amended). With the floor passed and a same-side cache entry under
    another address, the filter accepts the packet when the model matches
    the cached one, the RSSI is within 50 of the cached same-side packet,
    the opposite side is not cached or its RSSI is within 50 too, and every
    battery field that both packets report has the same stored value. *)
Theorem IsPossibleDesiredAdv_rotated_address
  (s : StateManager) (adv last : Advertisement) (t : Timestamp) :
  _rssiMin s <= GetRssi adv ->
  cache (advSide adv) s = Some (last, t) ->
  GetAddress last <> GetAddress adv ->
  AdvState.model (GetAdvState adv) = AdvState.model (GetAdvState last) ->
  Z.abs (GetRssi adv - GetRssi last) <= 50 ->
  batteries battery_unchanged (GetAdvState adv) (GetAdvState last) ->
  other_side_near s adv ->
  result (IsPossibleDesiredAdv adv s) = true.
Proof.
  intros Hfloor Hcache Haddr Hmodel Hrssi Hbat Hother.
  rewrite IsPossibleDesiredAdv_result.
  unfold floor_ok, same_side_ok, other_side_ok.
  rewrite Hcache.
  rewrite bool_decide_eq_false_2 by assumption.
  rewrite bool_decide_eq_true_2 by assumption.
  rewrite batteries_unchanged_ok by assumption.
  rewrite absdiff16_small by lia.
  unfold other_side_near in Hother.
  destruct (cache (opposite (advSide adv)) s) as [[another ta]|].
  - rewrite absdiff16_small by lia.
    repeat (apply andb_true_intro; split);
      try reflexivity; apply negb_true_iff; lia.
  - repeat (apply andb_true_intro; split);
      try reflexivity; apply negb_true_iff; lia.
Qed.

(** ** The merge (C4, C10) *)

Lemma MergedState_group
  (g : Group) (adv : Sides.t (option (Advertisement * Timestamp))) :
  taken_from g (MergedState adv) (PICK_SIDE (usable g) (CachedAdvState adv)).
Proof. destruct g; reflexivity. Qed.

Lemma usable_default (g : Group) : usable g AdvState_default = false.
Proof. destruct g; reflexivity. Qed.

Lemma not_usable_unavailable (g : Group) (st : State.t) (a : AdvState.t) :
  usable g a = false -> taken_from g st a -> unavailable g st.
Proof.
  destruct g; simpl;
    unfold model_available, left_available, right_available, case_available,
      Available; intros Hu Ht; rewrite Ht.
  - apply negb_false_iff, bool_decide_eq_true_1 in Hu. exact Hu.
  - destruct (PodState.battery _); [discriminate | reflexivity].
  - destruct (PodState.battery _); [discriminate | reflexivity].
  - destruct (CaseState.battery _); [discriminate | reflexivity].
Qed.

Lemma UpdateState_run (s : StateManager) :
  UpdateState s
  = if State_equal (MergedState (_adv s)) (_cachedState s)
    then (None, s, [])
    else (Some (mkUpdateEvent (_cachedState s) (MergedState (_adv s))),
          with_cachedState (Some (MergedState (_adv s))) s, []).
Proof.
  unfold UpdateState. prog.
  destruct (State_equal (MergedState (_adv s)) (_cachedState s)); reflexivity.
Qed.

Lemma State_equal_true (st : State.t) (c : option State.t) :
  State_equal st c = true <-> c = Some st.
Proof.
  unfold State_equal. rewrite bool_decide_eq_true. split; congruence.
Qed.

(** After [UpdateState] the canonical state is the merge of the caches. *)
Lemma UpdateState_cachedState (s : StateManager) :
  _cachedState (final (UpdateState s)) = Some (MergedState (_adv s))
  /\ _adv (final (UpdateState s)) = _adv s.
Proof.
  rewrite UpdateState_run.
  destruct (State_equal (MergedState (_adv s)) (_cachedState s)) eqn:Heq.
  - apply State_equal_true in Heq. split; [exact Heq | reflexivity].
  - split; reflexivity.
Qed.

(** With both sides available the receipt times decide, by the strict
    comparison of the macro. *)
Lemma PICK_SIDE_both
  (available : AdvState.t -> bool) (c : Sides.t (AdvState.t * Timestamp)) :
  available (fst (Sides.left c)) = true ->
  available (fst (Sides.right c)) = true ->
  PICK_SIDE available c
  = if snd (Sides.left c) >? snd (Sides.right c)
    then fst (Sides.left c) else fst (Sides.right c).
Proof. intros Hl Hr. unfold PICK_SIDE. simpl. rewrite Hl, Hr. reflexivity. Qed.

(** C10. With both sides cached and usable for a group, the snapshot
    [UpdateState] picks for the group is the right one whenever the left
    receipt time is not strictly later, in particular when the two receipt
    times are equal; it is the left one when the left receipt time is
    strictly later, and only then can it differ from the right one.  The
    stored state takes the group from the picked snapshot. *)
Theorem UpdateState_tie_goes_right
  (s : StateManager) (g : Group) (aL aR : Advertisement) (tL tR : Timestamp) :
  cache Left s = Some (aL, tL) ->
  cache Right s = Some (aR, tR) ->
  usable g (GetAdvState aL) = true ->
  usable g (GetAdvState aR) = true ->
  let picked := PICK_SIDE (usable g) (CachedAdvState (_adv s)) in
  (tL = tR -> picked = GetAdvState aR)
  /\ (tL <= tR -> picked = GetAdvState aR)
  /\ (tR < tL -> picked = GetAdvState aL)
  /\ (picked <> GetAdvState aR -> tR < tL)
  /\ exists st,
       _cachedState (final (UpdateState s)) = Some st
       /\ taken_from g st picked.
Proof.
  intros HL HR HuL HuR picked. unfold cache in HL, HR.
  assert (picked = if tL >? tR then GetAdvState aL else GetAdvState aR)
    as Hpick.
  { unfold picked, CachedAdvState. rewrite HL, HR.
    apply PICK_SIDE_both; assumption. }
  destruct (Z.gtb_spec tL tR); rewrite Hpick;
    (repeat split; intros; try (reflexivity || lia || congruence));
    exists (MergedState (_adv s));
    (split; [apply UpdateState_cachedState|]);
    rewrite <- Hpick; apply MergedState_group.
Qed.

(** C4. The state [UpdateState] stores is assembled group by group, each
    of model, left pod, right pod and case on its own: when both caches
    carry a usable value the group comes from the snapshot received later;
    when one cache alone carries a usable value the group comes from it;
    when neither does the group is unavailable in the merged state. *)
Theorem UpdateState_merges_by_group (s : StateManager) (g : Group) :
  exists st,
    _cachedState (final (UpdateState s)) = Some st
    /\ (forall aL tL aR tR,
          cache Left s = Some (aL, tL) -> cache Right s = Some (aR, tR) ->
          usable g (GetAdvState aL) = true ->
          usable g (GetAdvState aR) = true ->
          (tR < tL -> taken_from g st (GetAdvState aL))
          /\ (tL < tR -> taken_from g st (GetAdvState aR)))
    /\ (forall aL tL,
          cache Left s = Some (aL, tL) ->
          usable g (GetAdvState aL) = true ->
          carries g (cache Right s) = false ->
          taken_from g st (GetAdvState aL))
    /\ (forall aR tR,
          cache Right s = Some (aR, tR) ->
          usable g (GetAdvState aR) = true ->
          carries g (cache Left s) = false ->
          taken_from g st (GetAdvState aR))
    /\ (carries g (cache Left s) = false ->
        carries g (cache Right s) = false ->
        unavailable g st).
Proof.
  destruct (UpdateState_cachedState s) as [Hc _].
  exists (MergedState (_adv s)). split; [exact Hc|].
  pose proof (MergedState_group g (_adv s)) as Hg.
  unfold cache, carries.
  repeat split.
  - intros Ht.
    match goal with
    | HL : Sides.left _ = Some _, HR : Sides.right _ = Some _ |- _ =>
        unfold CachedAdvState in Hg; rewrite HL, HR in Hg
    end.
    rewrite PICK_SIDE_both in Hg by assumption. simpl in Hg.
    destruct (Z.gtb_spec tL tR); [exact Hg | lia].
  - intros Ht.
    match goal with
    | HL : Sides.left _ = Some _, HR : Sides.right _ = Some _ |- _ =>
        unfold CachedAdvState in Hg; rewrite HL, HR in Hg
    end.
    rewrite PICK_SIDE_both in Hg by assumption. simpl in Hg.
    destruct (Z.gtb_spec tL tR); [lia | exact Hg].
  - intros aL tL HL HuL HnR.
    unfold PICK_SIDE, CachedAdvState in Hg. rewrite HL in Hg. simpl in Hg.
    rewrite HuL in Hg.
    destruct (Sides.right (_adv s)) as [[aR tR]|]; simpl in Hg.
    + rewrite HnR in Hg. exact Hg.
    + rewrite usable_default in Hg. exact Hg.
  - intros aR tR HR HuR HnL.
    unfold PICK_SIDE, CachedAdvState in Hg. rewrite HR in Hg. simpl in Hg.
    rewrite HuR in Hg.
    destruct (Sides.left (_adv s)) as [[aL tL]|]; simpl in Hg.
    + rewrite HnL in Hg. exact Hg.
    + rewrite usable_default in Hg. exact Hg.
  - intros HnL HnR.
    unfold PICK_SIDE, CachedAdvState in Hg.
    destruct (Sides.left (_adv s)) as [[aL tL]|],
             (Sides.right (_adv s)) as [[aR tR]|]; simpl in Hg;
      rewrite ?usable_default, ?HnL, ?HnR in Hg; simpl in Hg;
      (eapply not_usable_unavailable; [|exact Hg]);
      first [exact HnR | apply usable_default].
Qed.

(** ** Storing an accepted advertisement *)

Lemma UpdateAdv_run (adv : Advertisement) (now : Timestamp) (s : StateManager) :
  UpdateAdv adv now s = (tt, stored adv now s, []).
Proof.
  unfold stored, UpdateAdv. prog.
  destruct (AdvState.side (GetAdvState adv)); reflexivity.
Qed.

Lemma stored_same_side (adv : Advertisement) (now : Timestamp) (s : StateManager) :
  cache (advSide adv) (stored adv now s) = Some (adv, now).
Proof.
  unfold stored, UpdateAdv, advSide, cache. prog.
  destruct (AdvState.side (GetAdvState adv)); reflexivity.
Qed.

Lemma stored_other_side (adv : Advertisement) (now : Timestamp) (s : StateManager) :
  cache (opposite (advSide adv)) (stored adv now s)
  = cache (opposite (advSide adv)) s.
Proof.
  unfold stored, UpdateAdv, advSide, cache. prog.
  destruct (AdvState.side (GetAdvState adv)); reflexivity.
Qed.

Lemma stored_fields (adv : Advertisement) (now : Timestamp) (s : StateManager) :
  _rssiMin (stored adv now s) = _rssiMin s
  /\ _cachedState (stored adv now s) = _cachedState s
  /\ _lostTimer (stored adv now s) = Timer.Reset now (_lostTimer s).
Proof.
  unfold stored, UpdateAdv. prog.
  destruct (AdvState.side (GetAdvState adv)); repeat split.
Qed.

(** The caches after storing depend on the caches before only. *)
Lemma stored_adv_congr
  (adv : Advertisement) (now : Timestamp) (s s' : StateManager) :
  _adv s = _adv s' -> _adv (stored adv now s) = _adv (stored adv now s').
Proof.
  intros Heq. unfold stored, UpdateAdv. prog.
  destruct (AdvState.side (GetAdvState adv)); simpl; rewrite Heq; reflexivity.
Qed.

(** An accepted advertisement is stored and the state recomputed. *)
Lemma OnAdvReceived_accepted
  (adv : Advertisement) (now : Timestamp) (s : StateManager) :
  result (IsPossibleDesiredAdv adv s) = true ->
  exists log,
    OnAdvReceived adv now s
    = (result (UpdateState (stored adv now s)),
       final (UpdateState (stored adv now s)), log)
    /\ Forall is_warning log.
Proof.
  intros Hacc. rewrite IsPossibleDesiredAdv_result in Hacc.
  destruct (IsPossibleDesiredAdv_run adv s) as (log & Hrun & Hlog).
  unfold OnAdvReceived, bind. rewrite Hrun, Hacc. simpl.
  rewrite UpdateAdv_run. simpl.
  exists log. rewrite UpdateState_run.
  destruct (State_equal _ _); simpl; rewrite ?app_nil_r;
    split; (reflexivity || assumption).
Qed.

(** ** A repeated advertisement (C5) *)

Lemma PICK_SIDE_restamp_left
  (available : AdvState.t -> bool) (a : AdvState.t) (t1 t2 : Timestamp)
  (r : AdvState.t * Timestamp) :
  (available (fst r) = true -> snd r < t1 <= t2) ->
  PICK_SIDE available (Sides.mk (a, t1) r)
  = PICK_SIDE available (Sides.mk (a, t2) r).
Proof.
  intros Ht. unfold PICK_SIDE. simpl.
  destruct (available a); simpl; [|reflexivity].
  destruct (available (fst r)); simpl; [|reflexivity].
  specialize (Ht eq_refl).
  destruct (Z.gtb_spec t1 (snd r)), (Z.gtb_spec t2 (snd r));
    (reflexivity || lia).
Qed.

Lemma PICK_SIDE_restamp_right
  (available : AdvState.t -> bool) (a : AdvState.t) (t1 t2 : Timestamp)
  (l : AdvState.t * Timestamp) :
  (available (fst l) = true -> snd l <= t1 <= t2) ->
  PICK_SIDE available (Sides.mk l (a, t1))
  = PICK_SIDE available (Sides.mk l (a, t2)).
Proof.
  intros Ht. unfold PICK_SIDE. simpl.
  destruct (available (fst l)); simpl; [|reflexivity].
  destruct (available a); simpl; [|reflexivity].
  specialize (Ht eq_refl).
  destruct (Z.gtb_spec (snd l) t1), (Z.gtb_spec (snd l) t2);
    (reflexivity || lia).
Qed.

Lemma MergedState_by_group
  (c1 c2 : Sides.t (option (Advertisement * Timestamp))) :
  (forall g, PICK_SIDE (usable g) (CachedAdvState c1)
             = PICK_SIDE (usable g) (CachedAdvState c2)) ->
  MergedState c1 = MergedState c2.
Proof.
  intros Hg. unfold MergedState.
  pose proof (Hg GModel) as Hm. pose proof (Hg GLeftPod) as Hl.
  pose proof (Hg GRightPod) as Hr. pose proof (Hg GCaseBox) as Hc.
  simpl in Hm, Hl, Hr, Hc. rewrite Hm, Hl, Hr, Hc. reflexivity.
Qed.

(** Storing the same advertisement later does not change the merge. *)
Lemma MergedState_restamp
  (adv : Advertisement) (now1 now2 : Timestamp) (s : StateManager) :
  received_after (advSide adv) now1 (cache (opposite (advSide adv)) s) ->
  now1 <= now2 ->
  MergedState (_adv (stored adv now2 (stored adv now1 s)))
  = MergedState (_adv (stored adv now1 s)).
Proof.
  intros Hafter Hle. symmetry. apply MergedState_by_group. intros g.
  unfold stored, UpdateAdv, advSide, cache, received_after in *. prog.
  destruct (AdvState.side (GetAdvState adv)); simpl in *;
    unfold CachedAdvState; simpl.
  - apply PICK_SIDE_restamp_left.
    destruct (Sides.right (_adv s)) as [[o t]|]; simpl.
    + intros _. lia.
    + rewrite usable_default. discriminate.
  - apply PICK_SIDE_restamp_right.
    destruct (Sides.left (_adv s)) as [[o t]|]; simpl.
    + intros _. lia.
    + rewrite usable_default. discriminate.
Qed.

(** C5 (amended). An accepted advertisement submitted a second time, at a
    receipt time no earlier than the first, is accepted again; the repeat
    returns no event and leaves the canonical state unchanged, provided the
    first receipt time was not before the opposite side's cached receipt
    time and, for a left-side packet, strictly after it. *)
Theorem OnAdvReceived_repeat_is_silent
  (s : StateManager) (adv : Advertisement) (now1 now2 : Timestamp) :
  result (IsPossibleDesiredAdv adv s) = true ->
  received_after (advSide adv) now1 (cache (opposite (advSide adv)) s) ->
  now1 <= now2 ->
  let s1 := final (OnAdvReceived adv now1 s) in
  result (IsPossibleDesiredAdv adv s1) = true
  /\ result (OnAdvReceived adv now2 s1) = None
  /\ _cachedState (final (OnAdvReceived adv now2 s1)) = _cachedState s1.
Proof.
  intros Hacc Hafter Hle s1.
  destruct (OnAdvReceived_accepted adv now1 s Hacc) as (log1 & Hrun1 & _).
  assert (s1 = final (UpdateState (stored adv now1 s))) as Hs1
    by (unfold s1; rewrite Hrun1; reflexivity).
  destruct (UpdateState_cachedState (stored adv now1 s)) as [Hc1 Ha1].
  rewrite <- Hs1 in Hc1, Ha1.
  assert (_rssiMin s1 = _rssiMin s) as Hmin.
  { rewrite Hs1, UpdateState_run.
    destruct (State_equal _ _); apply stored_fields. }
  assert (cache (advSide adv) s1 = Some (adv, now1)) as Hsame.
  { rewrite <- (stored_same_side adv now1 s). unfold cache.
    rewrite Ha1. reflexivity. }
  assert (cache (opposite (advSide adv)) s1
          = cache (opposite (advSide adv)) s) as Hopp.
  { rewrite <- (stored_other_side adv now1 s). unfold cache.
    rewrite Ha1. reflexivity. }
  assert (result (IsPossibleDesiredAdv adv s1) = true) as Hacc2.
  { rewrite IsPossibleDesiredAdv_result in Hacc |- *.
    apply andb_true_iff in Hacc as [Hacc Hother].
    apply andb_true_iff in Hacc as [Hfloor _].
    unfold floor_ok, same_side_ok, other_side_ok in *.
    rewrite Hmin, Hsame, Hopp, Hfloor, Hother.
    rewrite bool_decide_eq_true_2 by reflexivity. reflexivity. }
  split; [exact Hacc2|].
  destruct (OnAdvReceived_accepted adv now2 s1 Hacc2) as (log2 & Hrun2 & _).
  rewrite Hrun2. unfold result, final. simpl.
  assert (MergedState (_adv (stored adv now2 s1)) = MergedState (_adv s1))
    as Hmerge.
  { rewrite (stored_adv_congr adv now2 s1 (stored adv now1 s) Ha1).
    rewrite Ha1. apply MergedState_restamp; assumption. }
  rewrite UpdateState_run.
  destruct (stored_fields adv now2 s1) as (_ & Hc2 & _).
  rewrite Hc2, Hc1, Hmerge.
  assert (State_equal (MergedState (_adv s1))
            (Some (MergedState (_adv (stored adv now1 s)))) = true) as ->.
  { apply State_equal_true. rewrite Ha1. reflexivity. }
  simpl. split; [reflexivity|]. rewrite Hc2. exact Hc1.
Qed.

(** ** The timers (C7, C2) *)

Lemma wired_new (now : Timestamp) (rssiMin : Z) :
  wired (StateManager_new now rssiMin).
Proof. repeat split. Qed.

Lemma ResetAll_run (s : StateManager) :
  ResetAll s
  = (tt, cleared s,
     if has_value (_cachedState s) then [DisconnectSafely] else []).
Proof.
  unfold ResetAll. prog. destruct (has_value (_cachedState s)); reflexivity.
Qed.

Lemma DoLost_run (s : StateManager) :
  DoLost s
  = (tt, cleared s,
     if has_value (_cachedState s)
     then [LOG Info "StateManager: Device is lost."; DisconnectSafely]
     else []).
Proof.
  unfold DoLost, ResetAll. prog.
  destruct (_cachedState s) eqn:Hc; simpl; rewrite Hc; reflexivity.
Qed.

Lemma DoStateReset_run (sd : Side) (s : StateManager) :
  DoStateReset sd s
  = if has_value (cache sd s)
    then (tt, expired sd s,
          [LOG Info "StateManager: DoStateReset called. Side: {}"])
    else (tt, s, []).
Proof.
  unfold DoStateReset, cache, expired. prog.
  destruct sd; simpl;
    [destruct (Sides.left (_adv s)) | destruct (Sides.right (_adv s))];
    reflexivity.
Qed.

Lemma expired_same_side (sd : Side) (s : StateManager) :
  cache sd (final (DoStateReset sd s)) = None.
Proof.
  rewrite DoStateReset_run.
  destruct (has_value (cache sd s)) eqn:Hv; unfold final; simpl.
  - destruct sd; reflexivity.
  - destruct (cache sd s); [discriminate | reflexivity].
Qed.

Lemma expired_rest (sd : Side) (s : StateManager) :
  let s' := final (DoStateReset sd s) in
  cache (opposite sd) s' = cache (opposite sd) s
  /\ _cachedState s' = _cachedState s
  /\ _rssiMin s' = _rssiMin s
  /\ _lostTimer s' = _lostTimer s
  /\ _stateResetTimer s' = _stateResetTimer s.
Proof.
  rewrite DoStateReset_run.
  destruct (has_value (cache sd s)); unfold final; simpl;
    destruct sd; repeat split.
Qed.

Lemma step_lost_timer (s : StateManager) :
  wired s ->
  step LostTimerFired s
  = (None, cleared s,
     if has_value (_cachedState s)
     then [LOG Info "StateManager: Device is lost."; DisconnectSafely]
     else []).
Proof.
  intros (_ & Hcb & _). unfold step, no_event, Fire, bind at 1. unfold get.
  rewrite Hcb. unfold bind. rewrite DoLost_run. unfold ret.
  rewrite app_nil_r. reflexivity.
Qed.

Lemma step_reset_timer (sd : Side) (s : StateManager) :
  wired s ->
  step (ResetTimerFired sd) s
  = (None, final (DoStateReset sd s), effects (DoStateReset sd s)).
Proof.
  intros (_ & _ & _ & Hl & _ & Hr).
  unfold step, no_event, Fire.
  destruct sd; unfold bind at 1; unfold get; [rewrite Hl | rewrite Hr];
    unfold bind, ret; destruct (DoStateReset _ s) as [[u s'] e];
    unfold final, effects; simpl; rewrite app_nil_r; reflexivity.
Qed.

Lemma cleared_idempotent (s : StateManager) : cleared (cleared s) = cleared s.
Proof. reflexivity. Qed.

Lemma wired_cleared (s : StateManager) : wired s -> wired (cleared s).
Proof. intros Hw. exact Hw. Qed.

(** Once cleared, further firings of the lost timer do nothing. *)
Lemma lost_timer_on_cleared (s : StateManager) (n : nat) :
  wired s ->
  run (repeat LostTimerFired n) (cleared s) = ([], cleared s, []).
Proof.
  intros Hw. induction n as [|n IH]; [reflexivity|].
  cbn [repeat run].
  rewrite (step_lost_timer (cleared s) (wired_cleared s Hw)).
  rewrite cleared_idempotent, IH. reflexivity.
Qed.

Lemma wired_wiring (s : StateManager) :
  wired s
  <-> wiring s = (10, Timer.CbDoLost, (10, Timer.CbDoStateReset Left),
                  (10, Timer.CbDoStateReset Right)).
Proof.
  unfold wired, wiring. split.
  - intros (-> & -> & -> & -> & -> & ->). reflexivity.
  - intros Heq. injection Heq as -> -> -> -> -> ->. repeat split.
Qed.

Lemma wiring_step (i : Input) (s : StateManager) :
  wiring (final (step i s)) = wiring s.
Proof.
  destruct i as [adv now| |sd| |r]; simpl.
  - destruct (result (IsPossibleDesiredAdv adv s)) eqn:Hacc.
    + destruct (OnAdvReceived_accepted adv now s Hacc) as (log & -> & _).
      rewrite UpdateState_run. unfold stored, UpdateAdv. prog.
      destruct (State_equal _ _), (AdvState.side (GetAdvState adv));
        reflexivity.
    + destruct (OnAdvReceived_rejected_run adv now s Hacc) as (log & -> & _).
      reflexivity.
  - unfold no_event, Fire, bind at 1. unfold get.
    destruct (Timer.callback (_lostTimer s)) as [|sd]; unfold bind, ret.
    + rewrite DoLost_run. reflexivity.
    + rewrite DoStateReset_run.
      destruct (has_value (cache sd s)), sd; reflexivity.
  - destruct sd; unfold no_event, Fire, bind at 1; unfold get.
    + destruct (Timer.callback (Sides.left (_stateResetTimer s))) as [|sd];
        unfold bind, ret.
      * rewrite DoLost_run. reflexivity.
      * rewrite DoStateReset_run.
        destruct (has_value (cache sd s)), sd; reflexivity.
    + destruct (Timer.callback (Sides.right (_stateResetTimer s))) as [|sd];
        unfold bind, ret.
      * rewrite DoLost_run. reflexivity.
      * rewrite DoStateReset_run.
        destruct (has_value (cache sd s)), sd; reflexivity.
  - unfold no_event, Disconnect, bind, emit, ret. rewrite ResetAll_run.
    reflexivity.
  - reflexivity.
Qed.

(** Every state the engine reaches from its constructor is [wired]. *)
Lemma wired_run (inputs : list Input) (s : StateManager) :
  wired s -> wired (final (run inputs s)).
Proof.
  revert s. induction inputs as [|i rest IH]; intros s Hw; [exact Hw|].
  cbn [run].
  pose proof (wiring_step i s) as Hstep.
  destruct (step i s) as [[ev s1] e1].
  specialize (IH s1). destruct (run rest s1) as [[evs s2] e2].
  unfold final in *. simpl in *. apply IH.
  apply wired_wiring. rewrite Hstep. apply wired_wiring. exact Hw.
Qed.

(** C7. From a state with a canonical state, the expiry of the lost timer
    (ten seconds, bound to [DoLost]) resets the whole engine once: both
    caches and the canonical state are cleared, the loss is logged once and
    the window is told to disconnect once.  Any number of later firings on
    the emptied engine return nothing, change nothing and leave an empty
    trace. *)
Theorem lost_timer_notifies_once
  (s : StateManager) (c : State.t) (n : nat) :
  wired s ->
  _cachedState s = Some c ->
  Timer.interval (_lostTimer s) = 10
  /\ step LostTimerFired s
     = (None, cleared s,
        [LOG Info "StateManager: Device is lost."; DisconnectSafely])
  /\ run (repeat LostTimerFired n) (cleared s) = ([], cleared s, []).
Proof.
  intros Hw Hc. split; [apply Hw|]. split.
  - rewrite (step_lost_timer s Hw), Hc. reflexivity.
  - apply lost_timer_on_cleared. exact Hw.
Qed.

(** The lost timer restarts on accepted advertisements only. *)
Lemma lost_timer_restarts_on_accept
  (adv : Advertisement) (now : Timestamp) (s : StateManager) :
  _lostTimer (final (OnAdvReceived adv now s))
  = if result (IsPossibleDesiredAdv adv s)
    then Timer.Reset now (_lostTimer s) else _lostTimer s.
Proof.
  destruct (result (IsPossibleDesiredAdv adv s)) eqn:Hacc.
  - destruct (OnAdvReceived_accepted adv now s Hacc) as (log & Hrun & _).
    rewrite Hrun, UpdateState_run.
    destruct (State_equal _ _); unfold final; simpl; apply stored_fields.
  - destruct (OnAdvReceived_rejected_run adv now s Hacc) as (log & -> & _).
    reflexivity.
Qed.

(** C2 (amended). When a side's reset timer fires, that side's cache is
    cleared and nothing else changes: the other cache, the canonical state,
    the floor and the timers stay, no update event is returned and the
    trace holds at most a log line.  The merge is recomputed by the next
    accepted advertisement, whose call returns exactly one update event
    (from the canonical state kept so far to the new merge) when the new
    merge differs from that canonical state, and none when it is equal. *)
Theorem reset_timer_clears_one_side (sd : Side) (s : StateManager) :
  wired s ->
  let fired := step (ResetTimerFired sd) s in
  result fired = None
  /\ Forall is_log (effects fired)
  /\ cache sd (final fired) = None
  /\ cache (opposite sd) (final fired) = cache (opposite sd) s
  /\ _cachedState (final fired) = _cachedState s
  /\ _rssiMin (final fired) = _rssiMin s
  /\ _lostTimer (final fired) = _lostTimer s
  /\ _stateResetTimer (final fired) = _stateResetTimer s
  /\ forall adv now,
       result (IsPossibleDesiredAdv adv (final fired)) = true ->
       let merged := MergedState (_adv (stored adv now (final fired))) in
       result (OnAdvReceived adv now (final fired))
       = if State_equal merged (_cachedState s) then None
         else Some (mkUpdateEvent (_cachedState s) merged).
Proof.
  intros Hw fired. unfold fired. rewrite (step_reset_timer sd s Hw).
  unfold result at 1, final, effects at 1. simpl.
  destruct (expired_rest sd s) as (Ho & Hc & Hm & Hlt & Hrt).
  pose proof (expired_same_side sd s) as Hs.
  unfold final in *. repeat split; try assumption.
  - rewrite DoStateReset_run. destruct (has_value (cache sd s));
      unfold effects; simpl; repeat constructor.
  - intros adv now Hacc.
    destruct (OnAdvReceived_accepted adv now _ Hacc) as (log & Hrun & _).
    rewrite Hrun. unfold result at 1. simpl.
    rewrite UpdateState_run.
    destruct (stored_fields adv now (snd (fst (DoStateReset sd s))))
      as (_ & Hcs & _).
    rewrite Hcs, Hc.
    destruct (State_equal _ (_cachedState s)); reflexivity.
Qed.

(** ** The decoder (C6, C9) *)

Lemma ScaleBattery_scaled (raw : Battery) : scaled_from raw (ScaleBattery raw).
Proof.
  destruct raw as [v|]; simpl; [|reflexivity].
  intros Hv. rewrite wrapU_small by lia. reflexivity.
Qed.

(** What a successful construction yields. *)
Lemma Advertisement_new_Done (data : ReceivedData.t) (adv : Advertisement) :
  Advertisement_new data = Done adv ->
  exists mfr,
    ReceivedData.manufacturerDataMap data !! VendorId = Some mfr
    /\ IsValid mfr = true
    /\ As mfr = Some (_protocol adv)
    /\ _data adv = data
    /\ AdvState.model (GetAdvState adv) = Protocol.GetModel (_protocol adv)
    /\ AdvState.side (GetAdvState adv)
       = Protocol.GetBroadcastedSide (_protocol adv)
    /\ PodState.battery (Sides.left (AdvState.pods (GetAdvState adv)))
       = ScaleBattery (Protocol.GetLeftBattery (_protocol adv))
    /\ PodState.battery (Sides.right (AdvState.pods (GetAdvState adv)))
       = ScaleBattery (Protocol.GetRightBattery (_protocol adv))
    /\ CaseState.battery (AdvState.caseBox (GetAdvState adv))
       = ScaleBattery (Protocol.GetCaseBattery (_protocol adv)).
Proof.
  unfold Advertisement_new, IsDesiredAdv, GetMfrData.
  destruct (ReceivedData.manufacturerDataMap data !! VendorId) as [mfr|];
    simpl; [|discriminate].
  destruct (IsValid mfr) eqn:Hvalid; simpl; [|discriminate].
  destruct (As mfr) as [protocol|] eqn:Has; [|discriminate].
  intros Hdone. injection Hdone as <-. exists mfr. simpl.
  repeat split; assumption.
Qed.

(** C6. In every constructed advertisement each of the three battery
    fields is the raw value of the protocol accessor scaled by ten when
    that value is available (and within the protocol's 0..10), and is
    unavailable, with nothing scaled, when the raw value is unavailable. *)
Theorem Advertisement_battery_scaling
  (data : ReceivedData.t) (adv : Advertisement) :
  Advertisement_new data = Done adv ->
  scaled_from (Protocol.GetLeftBattery (_protocol adv))
    (PodState.battery (Sides.left (AdvState.pods (GetAdvState adv))))
  /\ scaled_from (Protocol.GetRightBattery (_protocol adv))
       (PodState.battery (Sides.right (AdvState.pods (GetAdvState adv))))
  /\ scaled_from (Protocol.GetCaseBattery (_protocol adv))
       (CaseState.battery (AdvState.caseBox (GetAdvState adv))).
Proof.
  intros Hnew.
  destruct (Advertisement_new_Done data adv Hnew)
    as (mfr & _ & _ & _ & _ & _ & _ & Hl & Hr & Hc).
  rewrite Hl, Hr, Hc. repeat split; apply ScaleBattery_scaled.
Qed.

(** The recogniser is the constructor's precondition: on a recognised
    record the construction succeeds, on any other it stops at the first
    assertion. *)
Lemma Advertisement_new_recognised (data : ReceivedData.t) :
  IsDesiredAdv data = true -> exists adv, Advertisement_new data = Done adv.
Proof.
  unfold Advertisement_new, GetMfrData. intros Hrec. rewrite Hrec. simpl.
  unfold IsDesiredAdv in Hrec.
  destruct (ReceivedData.manufacturerDataMap data !! VendorId) as [mfr|];
    [|discriminate].
  destruct (IsValid mfr) eqn:Hvalid; [|discriminate].
  destruct (As_IsValid mfr Hvalid) as [protocol ->].
  eexists. reflexivity.
Qed.

Lemma Advertisement_new_unrecognised (data : ReceivedData.t) :
  IsDesiredAdv data = false ->
  Advertisement_new data = Fatal "IsDesiredAdv(data)".
Proof. unfold Advertisement_new. intros ->. reflexivity. Qed.

(** ** The advertisement entry point of the manager (C9, C3) *)

(** C9. [OnAdvertisementReceived] never stops at an assertion of the
    [Advertisement] constructor.  A record that is not recognised is
    answered with [false] before anything is constructed; for a recognised
    record the vendor entry is present and the payload parses, so the
    construction succeeds. *)
Theorem OnAdvertisementReceived_never_fatal
  (data : ReceivedData.t) (now : Timestamp) (m : Manager) :
  (exists r, OnAdvertisementReceived data now m = Done r)
  /\ (IsDesiredAdv data = false ->
      OnAdvertisementReceived data now m = Done (false, m, []))
  /\ (IsDesiredAdv data = true ->
      exists adv mfr,
        Advertisement_new data = Done adv
        /\ GetMfrData data = Done mfr
        /\ As mfr = Some (_protocol adv)).
Proof.
  unfold OnAdvertisementReceived.
  destruct (IsDesiredAdv data) eqn:Hrec; simpl.
  - destruct (Advertisement_new_recognised data Hrec) as [adv Hnew].
    rewrite Hnew. repeat split.
    + destruct (_deviceConnected m); simpl; eexists; reflexivity.
    + discriminate.
    + intros _.
      destruct (Advertisement_new_Done data adv Hnew)
        as (mfr & Hmap & _ & Has & _).
      exists adv, mfr. unfold GetMfrData. rewrite Hmap. auto.
  - repeat split.
    + eexists. reflexivity.
    + discriminate.
Qed.

(** C3 (what the code does). For a recognised record received while no
    device is connected, [OnAdvertisementReceived] logs the trace line and
    the "device disconnected" line, leaves the manager untouched, and
    returns [false]. *)
Theorem OnAdvertisementReceived_disconnected
  (data : ReceivedData.t) (now : Timestamp) (m : Manager) :
  IsDesiredAdv data = true ->
  _deviceConnected m = false ->
  OnAdvertisementReceived data now m
  = Done (false, m,
          [LOG Trace
             "AirPods advertisement received. Data: {}, Address Hash: {}, RSSI: {}";
           LOG Info
             "AirPods advertisement received, but device disconnected."]).
Proof.
  intros Hrec Hconn. unfold OnAdvertisementReceived.
  rewrite Hrec, Hconn. simpl.
  destruct (Advertisement_new_recognised data Hrec) as [adv ->].
  reflexivity.
Qed.

(** On the connected path the answer is [true] whatever the engine does
    with the packet, also when the filter drops it. *)
Lemma OnAdvertisementReceived_connected
  (data : ReceivedData.t) (now : Timestamp) (m : Manager) :
  IsDesiredAdv data = true ->
  _deviceConnected m = true ->
  exists m' trace, OnAdvertisementReceived data now m = Done (true, m', trace).
Proof.
  intros Hrec Hconn. unfold OnAdvertisementReceived.
  rewrite Hrec, Hconn. simpl.
  destruct (Advertisement_new_recognised data Hrec) as [adv ->].
  unfold bind, emit, ret, onStateMgr.
  destruct (OnAdvReceived adv now (_stateMgr m)) as [[ev sm] e1].
  destruct ev as [ev|].
  - destruct (OnStateChanged ev (with_stateMgr sm m)) as [[u m'] e2].
    eexists _, _. reflexivity.
  - eexists _, _. reflexivity.
Qed.

End Properties.

(** * Further properties *)

Section MoreProperties.

Context `{Platform}.

Ltac prog :=
  unfold result, final, effects, bind, ret, get, put, modify, emit in *;
  simpl in *.

(** ** More on the plausibility filter *)

(** X1. With both side caches empty the filter is the floor check alone:
    an advertisement is accepted exactly when its RSSI is not below the
    floor, whatever its address, model or batteries. *)
Theorem IsPossibleDesiredAdv_empty_caches
  (s : StateManager) (adv : Advertisement) :
  cache Left s = None ->
  cache Right s = None ->
  (result (IsPossibleDesiredAdv adv s) = true <-> _rssiMin s <= GetRssi adv).
Proof.
  intros HL HR. rewrite IsPossibleDesiredAdv_result.
  unfold floor_ok, same_side_ok, other_side_ok, cache in *.
  destruct (advSide adv); simpl; rewrite HL, HR;
    rewrite !andb_true_r, negb_true_iff, Z.ltb_ge; reflexivity.
Qed.

(** X2. A packet from the address cached on its own side is not compared
    with that cached packet at all: whatever its model, batteries and RSSI,
    it is accepted exactly when it passes the floor and, if the opposite
    side is cached, the RSSI rule against the opposite side. *)
Theorem IsPossibleDesiredAdv_same_address
  (s : StateManager) (adv last : Advertisement) (t : Timestamp) :
  cache (advSide adv) s = Some (last, t) ->
  GetAddress last = GetAddress adv ->
  (result (IsPossibleDesiredAdv adv s) = true
   <-> _rssiMin s <= GetRssi adv
       /\ forall another ta,
            cache (opposite (advSide adv)) s = Some (another, ta) ->
            Int.absdiff16 (GetRssi adv) (GetRssi another) <= 50).
Proof.
  intros Hcache Haddr. rewrite IsPossibleDesiredAdv_result.
  unfold floor_ok, same_side_ok, other_side_ok. rewrite Hcache.
  rewrite bool_decide_eq_true_2 by assumption. rewrite andb_true_r.
  rewrite andb_true_iff, negb_true_iff, Z.ltb_ge.
  destruct (cache (opposite (advSide adv)) s) as [[another ta]|].
  - rewrite negb_true_iff, Z.gtb_ltb, Z.ltb_ge. split.
    + intros [Hf Ho]. split; [exact Hf|].
      intros a' t' Heq. injection Heq as <- <-. exact Ho.
    + intros [Hf Ho]. split; [exact Hf | exact (Ho another ta eq_refl)].
  - split.
    + intros [Hf _]. split; [exact Hf|]. intros a' t' Heq. discriminate.
    + intros [Hf _]. split; [exact Hf | reflexivity].
Qed.

(** X3. The RSSI rule on 16-bit values: the difference is narrowed to 16
    bits before the comparison with 50, so the rule rejects exactly the
    distances from 51 to 32767; a distance of 32768 or more comes out
    negative and passes. *)
Theorem absdiff16_rejects (a b : Z) :
  int16 a -> int16 b ->
  ((Int.absdiff16 a b >? 50) = true <-> 50 < Z.abs (a - b) < 32768).
Proof.
  unfold int16. intros Ha Hb. rewrite Z.gtb_ltb, Z.ltb_lt.
  unfold Int.absdiff16, Int.wrapS.
  change (2 ^ (16 - 1)) with 32768. change (2 ^ 16) with 65536.
  destruct (Z_lt_ge_dec (Z.abs (a - b)) 32768) as [Hsmall|Hbig].
  - rewrite Z.mod_small by lia. lia.
  - replace (Z.abs (a - b) + 32768)
      with ((Z.abs (a - b) - 32768) + 1 * 65536) by lia.
    rewrite Z.mod_add by lia. rewrite Z.mod_small by lia. lia.
Qed.

(** X4. For two advertisements the constructor built from raw battery
    values in 0..10, the battery rule of the address-change block passes
    exactly when every battery field that both report is unchanged: the
    stored values are multiples of ten and the rule allows a distance
    of 1. *)
Theorem batteries_ok_constructed
  (d1 d2 : ReceivedData.t) (a1 a2 : Advertisement) :
  Advertisement_new d1 = Done a1 ->
  Advertisement_new d2 = Done a2 ->
  raw_in_range (_protocol a1) ->
  raw_in_range (_protocol a2) ->
  (batteries_ok (GetAdvState a1) (GetAdvState a2) = true
   <-> batteries battery_unchanged (GetAdvState a1) (GetAdvState a2)).
Proof.
  intros H1 H2 (Rl1 & Rr1 & Rc1) (Rl2 & Rr2 & Rc2).
  destruct (Advertisement_new_Done d1 a1 H1)
    as (_ & _ & _ & _ & _ & _ & _ & Hl1 & Hr1 & Hc1).
  destruct (Advertisement_new_Done d2 a2 H2)
    as (_ & _ & _ & _ & _ & _ & _ & Hl2 & Hr2 & Hc2).
  assert (forall r1 r2 : Battery,
            match r1 with Some v => 0 <= v <= 10 | None => True end ->
            match r2 with Some v => 0 <= v <= 10 | None => True end ->
            ((BatteryDiff (ScaleBattery r1) (ScaleBattery r2) >? 1) = false
             <-> battery_unchanged (ScaleBattery r1) (ScaleBattery r2)))
    as Hfield.
  { intros [v1|] [v2|] Hv1 Hv2; unfold ScaleBattery;
      try (split; [intros; exact I | reflexivity]).
    rewrite (wrapU_small (v1 * 10)), (wrapU_small (v2 * 10)) by lia.
    rewrite BatteryDiff_scaled by lia. unfold battery_unchanged.
    rewrite negb_false_iff, Z.eqb_eq. split; intros Heq; lia. }
  unfold batteries_ok, batteries.
  rewrite Hl1, Hr1, Hc1, Hl2, Hr2, Hc2.
  rewrite negb_true_iff, !orb_false_iff.
  rewrite !Hfield by assumption. tauto.
Qed.

(** ** The engine over sequences of inputs *)

Lemma run_cons (i : Input) (rest : list Input) (s : StateManager) :
  run (i :: rest) s
  = (match result (step i s) with
     | Some e => e :: result (run rest (final (step i s)))
     | None => result (run rest (final (step i s)))
     end,
     final (run rest (final (step i s))),
     effects (step i s) ++ effects (run rest (final (step i s)))).
Proof.
  cbn [run]. destruct (step i s) as [[ev s1] e1].
  unfold result, final, effects. simpl.
  destruct (run rest s1) as [[evs s2] e2]. reflexivity.
Qed.

Lemma run_invariant (P : StateManager -> Prop) :
  (forall i s, P s -> P (final (step i s))) ->
  forall inputs s, P s -> P (final (run inputs s)).
Proof.
  intros Hstep inputs. induction inputs as [|i rest IH]; intros s Hs.
  - exact Hs.
  - rewrite run_cons. unfold final at 1. simpl. apply IH, Hstep, Hs.
Qed.

Lemma step_fire (tm : Timer.t) (s : StateManager) :
  no_event (Fire tm) s = (None, final (Fire tm s), effects (Fire tm s)).
Proof.
  unfold no_event, bind, ret. destruct (Fire tm s) as [[u s'] e].
  unfold final, effects. simpl. rewrite app_nil_r. reflexivity.
Qed.

Lemma fired_step_kind (i : Input) (tm : Timer.t) (s : StateManager) :
  fired_callback i s = Some (Timer.callback tm) ->
  step_kind i s (no_event (Fire tm) s).
Proof.
  intros Hcb. rewrite step_fire. unfold Fire.
  destruct (Timer.callback tm) as [|sd].
  - rewrite DoLost_run. unfold final, effects. simpl.
    apply StepCleared; [right; exact Hcb|].
    destruct (has_value (_cachedState s)); reflexivity.
  - apply StepExpired. exact Hcb.
Qed.

Lemma get_bind {S A} (k : S -> Prog S A) (s : S) : bind get k s = k s s.
Proof.
  unfold bind, get. destruct (k s s) as [[b s2] e2]. reflexivity.
Qed.

Lemma step_cases (i : Input) (s : StateManager) : step_kind i s (step i s).
Proof.
  destruct i as [adv now| |sd| |r]; cbn [step]; rewrite ?get_bind.
  - destruct (result (IsPossibleDesiredAdv adv s)) eqn:Hacc.
    + destruct (OnAdvReceived_accepted adv now s Hacc) as (log & -> & Hlog).
      eapply StepAccepted; eauto.
    + destruct (OnAdvReceived_rejected_run adv now s Hacc)
        as (log & -> & Hlog).
      eapply StepRejected; eauto.
  - apply (fired_step_kind LostTimerFired (_lostTimer s) s). reflexivity.
  - destruct sd; rewrite get_bind.
    + apply (fired_step_kind (ResetTimerFired Left)
               (Sides.left (_stateResetTimer s)) s). reflexivity.
    + apply (fired_step_kind (ResetTimerFired Right)
               (Sides.right (_stateResetTimer s)) s). reflexivity.
  - unfold no_event, Disconnect, bind, emit, ret.
    rewrite ResetAll_run. apply StepCleared; [left; reflexivity|].
    destruct (has_value (_cachedState s)); reflexivity.
  - apply (StepFloor (RssiMinChanged r) s r). reflexivity.
Qed.

Lemma cache_adv (sd : Side) (s1 s2 : StateManager) :
  _adv s1 = _adv s2 -> cache sd s1 = cache sd s2.
Proof. unfold cache. intros ->. reflexivity. Qed.

Lemma absdiff16_sym (a b : Z) : Int.absdiff16 a b = Int.absdiff16 b a.
Proof.
  unfold Int.absdiff16. f_equal.
  replace (b - a) with (- (a - b)) by lia. symmetry. apply Z.abs_opp.
Qed.

Lemma caches_consistent_step (i : Input) (s : StateManager) :
  caches_consistent s -> caches_consistent (final (step i s)).
Proof.
  intros (HL & HR & Hcanon & Hrssi).
  destruct (step_cases i s) as [adv now log _ _ _|adv now log _ Hacc _
                               |trace _ _|sd _|r _];
    unfold final at 1; simpl.
  - repeat split; assumption.
  - destruct (UpdateState_cachedState (stored adv now s)) as [Hc Ha].
    pose proof (stored_same_side adv now s) as Hsame.
    pose proof (stored_other_side adv now s) as Hother.
    rewrite <- (cache_adv (advSide adv) _ _ Ha) in Hsame.
    rewrite <- (cache_adv (opposite (advSide adv)) _ _ Ha) in Hother.
    rewrite IsPossibleDesiredAdv_result in Hacc.
    apply andb_true_iff in Hacc as [_ Hnear]. unfold other_side_ok in Hnear.
    set (s' := final (UpdateState (stored adv now s))) in *.
    unfold caches_consistent.
    destruct (advSide adv) eqn:Hsd; cbn [opposite] in Hsame, Hother, Hnear;
      repeat split.
    + intros a t Heq. rewrite Hsame in Heq. congruence.
    + intros a t Heq. rewrite Hother in Heq. eauto.
    + intros _. rewrite Hc. reflexivity.
    + intros aL tL aR tR HeqL HeqR.
      rewrite Hsame in HeqL. rewrite Hother in HeqR.
      injection HeqL as <- <-. rewrite HeqR in Hnear.
      apply negb_true_iff in Hnear. rewrite Z.gtb_ltb, Z.ltb_ge in Hnear.
      exact Hnear.
    + intros a t Heq. rewrite Hother in Heq. eauto.
    + intros a t Heq. rewrite Hsame in Heq. congruence.
    + intros _. rewrite Hc. reflexivity.
    + intros aL tL aR tR HeqL HeqR.
      rewrite Hsame in HeqR. rewrite Hother in HeqL.
      injection HeqR as <- <-. rewrite HeqL in Hnear.
      apply negb_true_iff in Hnear. rewrite Z.gtb_ltb, Z.ltb_ge in Hnear.
      rewrite absdiff16_sym. exact Hnear.
  - repeat split; discriminate.
  - destruct (expired_rest sd s) as (Ho & Hc & _).
    pose proof (expired_same_side sd s) as Hs.
    set (s' := final (DoStateReset sd s)) in *.
    unfold caches_consistent. rewrite Hc.
    destruct sd; cbn [opposite] in Ho; repeat split.
    + intros a t Heq. rewrite Hs in Heq. discriminate.
    + intros a t Heq. rewrite Ho in Heq. eauto.
    + rewrite Hs, Ho. cbn [has_value orb]. intros Hv. apply Hcanon.
      rewrite Hv. apply orb_true_r.
    + intros aL tL aR tR HeqL. rewrite Hs in HeqL. discriminate.
    + intros a t Heq. rewrite Ho in Heq. eauto.
    + intros a t Heq. rewrite Hs in Heq. discriminate.
    + rewrite Hs, Ho. cbn [has_value]. rewrite orb_false_r.
      intros Hv. apply Hcanon. rewrite Hv. reflexivity.
    + intros aL tL aR tR _ HeqR. rewrite Hs in HeqR. discriminate.
  - repeat split; assumption.
Qed.

(** X5. In every state the engine reaches from its constructor, a cached
    advertisement sits on the side that broadcast it, a non-empty cache
    comes with a canonical state, and when both sides are cached the two
    cached packets pass the RSSI rule against each other (distance at most
    50 after narrowing). *)
Theorem caches_consistent_reachable
  (inputs : list Input) (now : Timestamp) (rssiMin : Z) :
  caches_consistent (final (run inputs (StateManager_new now rssiMin))).
Proof.
  apply run_invariant.
  - apply caches_consistent_step.
  - repeat split; discriminate.
Qed.

Lemma UpdateState_event (s : StateManager) (e : UpdateEvent) :
  result (UpdateState s) = Some e ->
  oldState e = _cachedState s
  /\ newState e = MergedState (_adv s)
  /\ _cachedState s <> Some (newState e)
  /\ _cachedState (final (UpdateState s)) = Some (newState e).
Proof.
  rewrite UpdateState_run.
  destruct (State_equal (MergedState (_adv s)) (_cachedState s)) eqn:Heq;
    unfold result, final; simpl; [discriminate|].
  intros [= <-]. simpl. repeat split.
  intros Hc. assert (State_equal (MergedState (_adv s)) (_cachedState s) = true)
    by (apply State_equal_true; exact Hc). congruence.
Qed.

Lemma UpdateState_no_event (s : StateManager) :
  result (UpdateState s) = None -> final (UpdateState s) = s.
Proof.
  rewrite UpdateState_run.
  destruct (State_equal (MergedState (_adv s)) (_cachedState s));
    unfold result, final; simpl; [reflexivity | discriminate].
Qed.

(** An event comes from an accepted advertisement only, and links the
    canonical state before the step to the one after it. *)
Lemma step_event (i : Input) (s : StateManager) (e : UpdateEvent) :
  result (step i s) = Some e ->
  (exists adv now, i = AdvReceived adv now)
  /\ oldState e = _cachedState s
  /\ _cachedState (final (step i s)) = Some (newState e)
  /\ event_reports_change e.
Proof.
  destruct (step_cases i s) as [adv now log _ _ _|adv now log Hi _ _
                               |trace _ _|sd _|r _];
    unfold result at 1; simpl; try discriminate.
  intros He.
  destruct (UpdateState_event _ e He) as (Hold & Hnew & Hne & Hc).
  destruct (stored_fields adv now s) as (_ & Hcs & _).
  unfold final at 1. simpl. repeat split.
  - eauto.
  - rewrite Hold. exact Hcs.
  - exact Hc.
  - rewrite Hold. exact Hne.
  - rewrite Hnew. reflexivity.
Qed.

(** X6. Every event the engine returns reports a change: its previous
    state is not its new state; and its new state carries no display name
    (the manager fills it in on its copy). *)
Theorem run_events_report_changes (inputs : list Input) (s : StateManager) :
  Forall event_reports_change (result (run inputs s)).
Proof.
  revert s. induction inputs as [|i rest IH]; intros s.
  - constructor.
  - rewrite run_cons. unfold result at 1. simpl.
    destruct (result (step i s)) as [e|] eqn:He; [|apply IH].
    constructor; [|apply IH].
    apply (step_event i s e He).
Qed.

Lemma wired_step (i : Input) (s : StateManager) :
  wired s -> wired (final (step i s)).
Proof.
  intros Hw. apply wired_wiring. rewrite wiring_step.
  apply wired_wiring. exact Hw.
Qed.

(** Without an event, a step that is no full reset keeps the canonical
    state. *)
Lemma step_keeps_canonical (i : Input) (s : StateManager) :
  wired s -> keeps_canonical i -> result (step i s) = None ->
  _cachedState (final (step i s)) = _cachedState s.
Proof.
  intros Hw Hkeep.
  destruct (step_cases i s) as [adv now log _ _ _|adv now log _ _ _
                               |trace Hi _|sd _|r _];
    unfold result at 1, final at 1; simpl; intros Hnone.
  - reflexivity.
  - change (final (UpdateState (stored adv now s)))
      with (snd (fst (UpdateState (stored adv now s)))).
    fold (final (UpdateState (stored adv now s))).
    rewrite (UpdateState_no_event _ Hnone). apply stored_fields.
  - exfalso. destruct Hi as [->|Hcb]; [exact Hkeep|].
    destruct Hw as (_ & Hl & _ & Hrl & _ & Hrr).
    destruct i as [| |[|]| |]; simpl in Hcb; try discriminate;
      try exact Hkeep; congruence.
  - apply (expired_rest sd s).
  - reflexivity.
Qed.

(** X7. As long as the engine is not reset as a whole (no disconnect, no
    expiry of the lost timer), the events it returns link up: the first
    starts from the canonical state the run started with, each later one
    from the state the one before it ended in, and the canonical state at
    the end is the one the last event ended in. *)
Theorem run_events_chain (inputs : list Input) (s : StateManager) :
  wired s ->
  Forall keeps_canonical inputs ->
  chained (_cachedState s) (result (run inputs s))
  /\ _cachedState (final (run inputs s))
     = last_state (_cachedState s) (result (run inputs s)).
Proof.
  revert s. induction inputs as [|i rest IH]; intros s Hw Hkeep.
  - split; [exact I | reflexivity].
  - inversion Hkeep as [|? ? Hi Hrest]; subst.
    rewrite run_cons. unfold result at 1 3, final at 1. simpl.
    specialize (IH (final (step i s)) (wired_step i s Hw) Hrest).
    destruct (result (step i s)) as [e|] eqn:He.
    + destruct (step_event i s e He) as (_ & Hold & Hc & _).
      rewrite Hc in IH. simpl. destruct IH as [IH1 IH2].
      repeat split; assumption.
    + rewrite (step_keeps_canonical i s Hw Hi He) in IH. exact IH.
Qed.

Lemma count_app (kind : Effect -> bool) (l1 l2 : list Effect) :
  count kind (l1 ++ l2) = (count kind l1 + count kind l2)%nat.
Proof. unfold count. rewrite List.filter_app, length_app. reflexivity. Qed.

Lemma count_warnings (kind : Effect -> bool) (log : list Effect) :
  (forall lvl fmt, kind (LOG lvl fmt) = false) ->
  Forall is_log log -> count kind log = 0%nat.
Proof.
  intros Hk Hlog. unfold count. induction Hlog as [|e log He _ IH].
  - reflexivity.
  - destruct e; try contradiction. simpl. rewrite Hk. exact IH.
Qed.

Lemma warning_is_log (log : list Effect) :
  Forall is_warning log -> Forall is_log log.
Proof.
  intros Hlog. induction Hlog as [|e log He _ IH]; constructor; [|exact IH].
  destruct e as [[]| | | | | | ]; simpl in *; tauto.
Qed.

(** The balance of one step: a disconnect notification uses up a
    canonical state, and a canonical state only appears with an event. *)
Lemma step_disconnect_balance (i : Input) (s : StateManager) :
  (count is_disconnect (effects (step i s))
   + b2n (has_value (_cachedState (final (step i s))))
   <= b2n (has_value (result (step i s)))
      + b2n (has_value (_cachedState s)))%nat.
Proof.
  destruct (step_cases i s) as [adv now log _ _ Hlog|adv now log _ _ Hlog
                               |trace _ Hcount|sd _|r _];
    unfold result, final, effects; simpl.
  - rewrite (count_warnings is_disconnect log);
      [lia | reflexivity | apply warning_is_log, Hlog].
  - rewrite (count_warnings is_disconnect log);
      [| reflexivity | apply warning_is_log, Hlog].
    rewrite UpdateState_run.
    destruct (stored_fields adv now s) as (_ & Hcs & _). rewrite Hcs.
    destruct (State_equal _ (_cachedState s)); simpl.
    + rewrite Hcs. lia.
    + destruct (has_value (_cachedState s)); simpl; lia.
  - rewrite Hcount. simpl. lia.
  - destruct (expired_rest sd s) as (_ & Hc & _).
    unfold final in Hc. simpl in Hc. rewrite Hc.
    assert (count is_disconnect (snd (DoStateReset sd s)) = 0%nat) as ->.
    { rewrite DoStateReset_run.
      destruct (has_value (cache sd s)); reflexivity. }
    lia.
  - simpl. lia.
Qed.

(** X8. Over any sequence of inputs the window is told to disconnect at
    most as often as there was a state to lose: the number of
    [DisconnectSafely] calls, plus one if a canonical state is left at the
    end, is at most the number of events returned, plus one if the run
    started with a canonical state.  From the constructor, every
    disconnect notification is matched by an earlier event. *)
Theorem run_disconnects_bounded (inputs : list Input) (s : StateManager) :
  (count is_disconnect (effects (run inputs s))
   + b2n (has_value (_cachedState (final (run inputs s))))
   <= length (result (run inputs s)) + b2n (has_value (_cachedState s)))%nat.
Proof.
  revert s. induction inputs as [|i rest IH]; intros s.
  - unfold final. simpl. lia.
  - rewrite run_cons.
    pose proof (step_disconnect_balance i s) as Hstep.
    specialize (IH (final (step i s))).
    remember (step i s) as r1 eqn:Hr1.
    remember (run rest (final r1)) as r2 eqn:Hr2.
    unfold result, final, effects in *. simpl in *. rewrite count_app.
    destruct (fst (fst r1)); simpl in *; lia.
Qed.

(** ** Resets and what follows them *)

(** X9. When the reset timers of both sides have fired, in either order,
    both caches are empty but the canonical state is still the one from
    before: [GetCurrentState] keeps returning it, no event was returned
    and the window was not told to disconnect.  The state stays until the
    lost timer fires or the device is disconnected. *)
Theorem both_sides_expired_keep_canonical (s : StateManager) :
  wired s ->
  let r := run [ResetTimerFired Left; ResetTimerFired Right] s in
  result r = []
  /\ cache Left (final r) = None
  /\ cache Right (final r) = None
  /\ _cachedState (final r) = _cachedState s
  /\ result (GetCurrentState (final r)) = _cachedState s
  /\ count is_disconnect (effects r) = 0%nat
  /\ final (run [ResetTimerFired Right; ResetTimerFired Left] s) = final r.
Proof.
  intros Hw.
  destruct s as [[l r'] c m lost [[li lcb lr] [ri rcb rr]]].
  destruct Hw as (_ & _ & _ & Hl & _ & Hr). simpl in Hl, Hr. subst lcb rcb.
  destruct l as [[aL tL]|], r' as [[aR tR]|]; cbv zeta; repeat split.
Qed.



(** ** The merge of a single side *)

(** X11. With only the right side cached the merged state is the right
    snapshot as a whole.  With only the left side cached, a group the left
    snapshot carries a usable value for comes from it, but a group it does
    not (unknown model, battery not reported) is value-initialised: the
    charging, in-ear, in-case and lid flags of the left snapshot are
    dropped with it. *)
Theorem MergedState_single_side (a : Advertisement) (t : Timestamp) :
  MergedState (Sides.mk None (Some (a, t))) = State_of (GetAdvState a)
  /\ forall g,
       taken_from g (MergedState (Sides.mk (Some (a, t)) None))
         (if usable g (GetAdvState a)
          then GetAdvState a else AdvState_default).
Proof.
  split.
  - unfold MergedState, CachedAdvState, PICK_SIDE, State_of. simpl.
    destruct (AdvState.pods (GetAdvState a)). reflexivity.
  - intros g.
    pose proof (MergedState_group g (Sides.mk (Some (a, t)) None)) as Hg.
    unfold PICK_SIDE, CachedAdvState in Hg. simpl in Hg.
    rewrite usable_default, andb_false_r in Hg. exact Hg.
Qed.

(** ** Timers *)

(** X12. An accepted advertisement restarts the lost timer and the reset
    timer of its own side at the instant of the call, and leaves the reset
    timer of the opposite side running as it was. *)
Theorem accepted_restarts_own_timers
  (adv : Advertisement) (now : Timestamp) (s : StateManager) :
  result (IsPossibleDesiredAdv adv s) = true ->
  let s' := final (OnAdvReceived adv now s) in
  _lostTimer s' = Timer.Reset now (_lostTimer s)
  /\ reset_timer (advSide adv) s'
     = Timer.Reset now (reset_timer (advSide adv) s)
  /\ reset_timer (opposite (advSide adv)) s'
     = reset_timer (opposite (advSide adv)) s.
Proof.
  intros Hacc s'. unfold s'.
  destruct (OnAdvReceived_accepted adv now s Hacc) as (log & -> & _).
  rewrite UpdateState_run. unfold stored, UpdateAdv, advSide, reset_timer.
  prog.
  destruct (State_equal _ _), (AdvState.side (GetAdvState adv));
    repeat split.
Qed.

(** ** The manager: state changes *)

(** [OnStateChanged], call by call: the name on the snapshot, the manager
    it leaves, and the trace. *)
Lemma OnStateChanged_run (ev : UpdateEvent) (m : Manager) :
  let name :=
    if isEmpty (_deviceName m) then ToString (State.model (newState ev))
    else QString_remove (_deviceName m) " - Find My" in
  let m' := if isEmpty (_deviceName m) then m else with_deviceName name m in
  let shown := with_displayName name (newState ev) in
  let old_opened :=
    match oldState ev with
    | Some old => lidOpenedAndBothInCase old
    | None => false
    end in
  OnStateChanged ev m
  = (tt, m',
     [UpdateStateSafely shown]
     ++ (if eqb old_opened (lidOpenedAndBothInCase shown) then []
         else [if lidOpenedAndBothInCase shown
               then ShowSafely else HideSafely])
     ++ match oldState ev with
        | Some old =>
            if eqb (bothInEar old) (bothInEar shown) then []
            else if _automaticEarDetection m
                 then [if bothInEar shown
                       then GlobalMedia_Play else GlobalMedia_Pause]
                 else [LOG Info
                         "automatic_ear_detection: Do nothing because it is disabled. ({})"]
        | None => []
        end).
Proof.
  unfold OnStateChanged, OnLidOpened, OnBothInEar. prog.
  destruct ev as [old new]. simpl.
  destruct (isEmpty (_deviceName m)); simpl;
    destruct old as [old|]; simpl;
    repeat match goal with
      | |- context [eqb ?a ?b] => destruct (eqb a b); simpl
      | |- context [lidOpenedAndBothInCase ?x] =>
          destruct (lidOpenedAndBothInCase x); simpl
      | |- context [bothInEar ?x] => destruct (bothInEar x); simpl
      | |- context [_automaticEarDetection ?x] =>
          destruct (_automaticEarDetection x) eqn:?; simpl
      end; try reflexivity.
Qed.

(** Case analysis on every flag an event's handling looks at. *)
Ltac flags :=
  unfold bothInEar, lidOpenedAndBothInCase; simpl;
  repeat match goal with
    | |- context [PodState.isInEar ?x] => destruct (PodState.isInEar x)
    | |- context [CaseState.isLidOpened ?x] =>
        destruct (CaseState.isLidOpened x)
    | |- context [CaseState.isBothPodsInCase ?x] =>
        destruct (CaseState.isBothPodsInCase x)
    | |- context [_automaticEarDetection ?x] =>
        destruct (_automaticEarDetection x)
    end; simpl.

(** X13. [OnStateChanged] calls the media transport at most once, and only
    when a previous state exists, automatic ear detection is on and
    "both pods in the ear" differs between the previous and the new state:
    then it plays if both are now in the ear and pauses otherwise.  The
    first state after a reset never starts or stops playback. *)
Theorem OnStateChanged_media (ev : UpdateEvent) (m : Manager) :
  List.filter is_media (effects (OnStateChanged ev m))
  = media_calls (_automaticEarDetection m) ev.
Proof.
  pose proof (OnStateChanged_run ev m) as Hrun. cbv zeta in Hrun.
  rewrite Hrun. unfold effects, media_calls. simpl.
  destruct ev as [[old|] new]; simpl; flags; reflexivity.
Qed.

(** X14. [OnStateChanged] updates the window exactly once, first, with the
    new state under its display name: the model's name when no device name
    is known, else the device name with the "Find My" suffix removed.  It
    then shows the window when the lid has just opened with both pods in
    the case, hides it when that has just ended, and does neither
    otherwise; an absent previous state counts as closed.  The engine, the
    connection flag and the ear-detection setting are left alone. *)
Theorem OnStateChanged_window (ev : UpdateEvent) (m : Manager) :
  exists shown rest,
    effects (OnStateChanged ev m) = UpdateStateSafely shown :: rest
    /\ shown
       = with_displayName
           (if isEmpty (_deviceName m)
            then ToString (State.model (newState ev))
            else QString_remove (_deviceName m) " - Find My")
           (newState ev)
    /\ count is_update rest = 0%nat
    /\ List.filter is_visibility rest = visibility_calls ev
    /\ _stateMgr (final (OnStateChanged ev m)) = _stateMgr m
    /\ _deviceConnected (final (OnStateChanged ev m)) = _deviceConnected m
    /\ _automaticEarDetection (final (OnStateChanged ev m))
       = _automaticEarDetection m.
Proof.
  pose proof (OnStateChanged_run ev m) as Hrun. cbv zeta in Hrun.
  rewrite Hrun. unfold effects, final. simpl.
  eexists _, _. split; [reflexivity|]. split; [reflexivity|].
  unfold count, visibility_calls.
  destruct ev as [[old|] new]; simpl;
    repeat split;
    try (destruct (isEmpty (_deviceName m)); reflexivity);
    flags; reflexivity.
Qed.

(** ** The manager: advertisements, connection, binding *)

Lemma OnAdvReceived_effects
  (adv : Advertisement) (now : Timestamp) (s : StateManager) :
  Forall is_warning (effects (OnAdvReceived adv now s)).
Proof.
  destruct (result (IsPossibleDesiredAdv adv s)) eqn:Hacc.
  - destruct (OnAdvReceived_accepted adv now s Hacc) as (log & -> & Hlog).
    exact Hlog.
  - destruct (OnAdvReceived_rejected_run adv now s Hacc) as (log & -> & Hlog).
    exact Hlog.
Qed.

Lemma OnStateChanged_updates_once (ev : UpdateEvent) (m : Manager) :
  count is_update (effects (OnStateChanged ev m)) = 1%nat
  /\ _stateMgr (final (OnStateChanged ev m)) = _stateMgr m.
Proof.
  pose proof (OnStateChanged_run ev m) as Hrun. cbv zeta in Hrun.
  rewrite Hrun. unfold effects, final, count. simpl.
  split; [|destruct (isEmpty (_deviceName m)); reflexivity].
  destruct ev as [[old|] new]; simpl; flags; reflexivity.
Qed.

Lemma with_stateMgr_same (m : Manager) : with_stateMgr (_stateMgr m) m = m.
Proof. destruct m. reflexivity. Qed.

(** X15. While a device is connected, a record the constructor accepts
    is handed to the engine and the answer is [true] whatever the engine
    does with it.  The manager's engine is the engine after
    [OnAdvReceived]; the window is updated exactly when the engine
    returned an event; and when the filter rejects the packet the manager
    is unchanged and only log lines are written. *)
Theorem OnAdvertisementReceived_connected_path
  (data : ReceivedData.t) (now : Timestamp) (m : Manager)
  (adv : Advertisement) :
  Advertisement_new data = Done adv ->
  _deviceConnected m = true ->
  exists m' trace,
    OnAdvertisementReceived data now m = Done (true, m', trace)
    /\ _stateMgr m' = final (OnAdvReceived adv now (_stateMgr m))
    /\ count is_update trace
       = b2n (has_value (result (OnAdvReceived adv now (_stateMgr m))))
    /\ (result (IsPossibleDesiredAdv adv (_stateMgr m)) = false ->
        m' = m /\ Forall is_log trace).
Proof.
  intros Hnew Hconn.
  assert (IsDesiredAdv data = true) as Hrec.
  { unfold Advertisement_new in Hnew.
    destruct (IsDesiredAdv data); [reflexivity | discriminate Hnew]. }
  unfold OnAdvertisementReceived. rewrite Hrec, Hnew, Hconn. simpl.
  unfold bind, emit, ret, onStateMgr.
  pose proof (OnAdvReceived_effects adv now (_stateMgr m)) as Hlog.
  apply warning_is_log in Hlog.
  destruct (OnAdvReceived adv now (_stateMgr m)) as [[ev sm] log] eqn:Hon.
  unfold result, final, effects in *. simpl in *.
  destruct ev as [ev|].
  - destruct (OnStateChanged_updates_once ev (with_stateMgr sm m))
      as [Hone Hkeep].
    destruct (OnStateChanged ev (with_stateMgr sm m)) as [[u m'] e2].
    unfold final, effects in *. simpl in *.
    eexists _, _. split; [reflexivity|]. split; [exact Hkeep|]. split.
    + change (LOG Trace ?f :: ?l) with ([LOG Trace f] ++ l).
      rewrite !count_app, Hone, (count_warnings is_update log) by auto.
      reflexivity.
    + intros Hrej.
      destruct (OnAdvReceived_rejected_run adv now (_stateMgr m) Hrej)
        as (log' & Hrun & _).
      rewrite Hrun in Hon. discriminate Hon.
  - eexists _, _. split; [reflexivity|]. split; [reflexivity|]. split.
    + change (LOG Trace ?f :: ?l) with ([LOG Trace f] ++ l).
      rewrite !count_app, (count_warnings is_update log) by auto.
      reflexivity.
    + intros Hrej.
      destruct (OnAdvReceived_rejected_run adv now (_stateMgr m) Hrej)
        as (log' & Hrun & _).
      rewrite Hrun in Hon. injection Hon as <- <-.
      split; [apply with_stateMgr_same|].
      constructor; [exact I|]. rewrite !app_nil_r. exact Hlog.
Qed.

(** X16. A change of the bound device's connection state sets the
    connection flag to the new state, and resets the engine exactly when
    the device was connected and no longer is: only then are the caches
    and the canonical state cleared, and the window is told to disconnect
    only if a canonical state existed.  Any other change leaves the engine
    as it was. *)
Theorem OnBoundDeviceConnectionStateChanged_resets
  (connected : bool) (m : Manager) :
  let r := OnBoundDeviceConnectionStateChanged connected m in
  let lost := _deviceConnected m && negb connected in
  _deviceConnected (final r) = connected
  /\ _stateMgr (final r)
     = (if lost then cleared (_stateMgr m) else _stateMgr m)
  /\ count is_disconnect (effects r)
     = b2n (lost && has_value (_cachedState (_stateMgr m)))
  /\ _deviceName (final r) = _deviceName m
  /\ _automaticEarDetection (final r) = _automaticEarDetection m.
Proof.
  unfold OnBoundDeviceConnectionStateChanged, onStateMgr, Disconnect.
  unfold bind, get, modify, emit, ret. simpl.
  destruct (_deviceConnected m), connected; simpl;
    rewrite ?ResetAll_run; unfold final, effects, count; simpl;
    repeat split;
    destruct (has_value (_cachedState (_stateMgr m))); reflexivity.
Qed.

(** X17. A binding request, whatever the address, first resets the
    engine: the caches and the canonical state are cleared, and the window
    is told to disconnect exactly once if a canonical state existed and
    not at all otherwise, also when the new device is found disconnected.
    Afterwards the bound device is the one the directory has for the
    address, none for address 0 or an unknown address; the connection flag
    is that device's state, off without a device; and without a device the
    stored device name is left as it was. *)
Theorem OnBoundDeviceAddressChanged_rebinds
  (FindDevice : Z -> option Device.t) (address : Z) (b : BoundManager) :
  let r := OnBoundDeviceAddressChanged FindDevice address b in
  let m := _manager b in
  _stateMgr (_manager (final r)) = cleared (_stateMgr m)
  /\ count is_disconnect (effects r)
     = b2n (has_value (_cachedState (_stateMgr m)))
  /\ _boundDevice (final r) = resolved FindDevice address
  /\ _deviceConnected (_manager (final r))
     = match resolved FindDevice address with
       | Some device =>
           bool_decide (Device.GetConnectionState device = Connected)
       | None => false
       end
  /\ (resolved FindDevice address = None ->
      _deviceName (_manager (final r)) = _deviceName m)
  /\ _automaticEarDetection (_manager (final r)) = _automaticEarDetection m.
Proof.
  unfold OnBoundDeviceAddressChanged, resolved, onManager,
    OnBoundDeviceConnectionStateChanged, onStateMgr, Disconnect.
  unfold bind, get, modify, emit, ret. simpl.
  rewrite ResetAll_run.
  destruct (address =? 0); simpl.
  - unfold final, effects, count. simpl.
    destruct (has_value (_cachedState (_stateMgr (_manager b))));
      repeat split.
  - destruct (FindDevice address) as [device|]; simpl;
      unfold final, effects, count; simpl;
      destruct (has_value (_cachedState (_stateMgr (_manager b))));
      repeat split; discriminate.
Qed.

(** X18. After a binding request that found its device, the stored device
    name is the device's name, unless that name contains "Bluetooth", in
    which case it is empty; the stored name never contains "Bluetooth". *)
Theorem OnBoundDeviceAddressChanged_name
  (FindDevice : Z -> option Device.t) (address : Z) (b : BoundManager)
  (device : Device.t) :
  resolved FindDevice address = Some device ->
  let name :=
    _deviceName
      (_manager (final (OnBoundDeviceAddressChanged FindDevice address b))) in
  name = (if found_in "Bluetooth" (Device.GetName device)
          then EmptyString else Device.GetName device)
  /\ found_in "Bluetooth" name = false.
Proof.
  unfold resolved. intros Hres.
  unfold OnBoundDeviceAddressChanged, onManager,
    OnBoundDeviceConnectionStateChanged, onStateMgr, Disconnect.
  unfold bind, get, modify, emit, ret. cbn zeta. rewrite ResetAll_run.
  destruct (address =? 0); [discriminate|]. rewrite Hres.
  unfold final. simpl.
  destruct (found_in "Bluetooth" (Device.GetName device)) eqn:Hfound;
    simpl; rewrite ?Hfound; split; reflexivity.
Qed.

(** ** Listing the paired devices *)

Variable AppleCP_GetModel : Z -> Model.





(** ** The constructor and the record *)

(** The recogniser is exactly the constructor's precondition: an
    advertisement is constructed from the records [IsDesiredAdv] accepts
    and from no others, and on any other record the construction stops at
    its first assertion. *)
Lemma Advertisement_new_iff_desired (data : ReceivedData.t) :
  (IsDesiredAdv data = true <-> exists adv, Advertisement_new data = Done adv)
  /\ (IsDesiredAdv data = false ->
      Advertisement_new data = Fatal "IsDesiredAdv(data)").
Proof.
  split; [split|].
  - apply Advertisement_new_recognised.
  - intros [adv Hnew]. unfold Advertisement_new in Hnew.
    destruct (IsDesiredAdv data); [reflexivity | discriminate Hnew].
  - apply Advertisement_new_unrecognised.
Qed.

(** X20. Only the entry under the vendor identifier is looked at: two
    records with the same entry there are recognised alike and decode to
    the same status, whatever their other entries, addresses and signal
    strengths; and a constructed advertisement reports the RSSI, the
    address and the timestamp of its own record. *)
Theorem Advertisement_depends_on_vendor_entry
  (d1 d2 : ReceivedData.t) :
  ReceivedData.manufacturerDataMap d1 !! VendorId
  = ReceivedData.manufacturerDataMap d2 !! VendorId ->
  IsDesiredAdv d1 = IsDesiredAdv d2
  /\ forall a1 a2,
       Advertisement_new d1 = Done a1 ->
       Advertisement_new d2 = Done a2 ->
       GetAdvState a1 = GetAdvState a2
       /\ _protocol a1 = _protocol a2
       /\ GetRssi a1 = ReceivedData.rssi d1
       /\ GetAddress a1 = ReceivedData.address d1
       /\ GetTimestamp a1 = ReceivedData.timestamp d1.
Proof.
  intros Hentry.
  assert (IsDesiredAdv d1 = IsDesiredAdv d2) as Hrec
    by (unfold IsDesiredAdv; rewrite Hentry; reflexivity).
  split; [exact Hrec|].
  unfold Advertisement_new, GetMfrData. rewrite Hrec, Hentry.
  intros a1 a2.
  destruct (IsDesiredAdv d2); simpl; [|discriminate].
  destruct (ReceivedData.manufacturerDataMap d2 !! VendorId) as [mfr|];
    [|discriminate].
  destruct (As mfr) as [protocol|]; [|discriminate].
  intros [= <-] [= <-]. repeat split.
Qed.

End MoreProperties.

(** ** Concrete runs *)

Lemma OnAdvReceived_rejected_witness :
  let s := Sample.after [AdvReceived Sample.right_95 1] in
  let adv := Sample.left_40_rotated in
  result (@IsPossibleDesiredAdv Sample.platform adv s) = false
  /\ result (@OnAdvReceived Sample.platform adv 2 s) = None
  /\ final (@OnAdvReceived Sample.platform adv 2 s) = s.
Proof.
  split; [vm_compute; reflexivity|].
  destruct (@OnAdvReceived_rejected Sample.platform Sample.left_40_rotated 2
              (Sample.after [AdvReceived Sample.right_95 1]))
    as (Hr & Hf & _).
  - vm_compute. reflexivity.
  - split; assumption.
Defined.

Lemma IsPossibleDesiredAdv_rotated_address_witness :
  result (@IsPossibleDesiredAdv Sample.platform Sample.left_40_rotated
            (Sample.after [AdvReceived Sample.left_50 1])) = true.
Proof.
  apply (@IsPossibleDesiredAdv_rotated_address Sample.platform
           (Sample.after [AdvReceived Sample.left_50 1])
           Sample.left_40_rotated Sample.left_50 1).
  - vm_compute. discriminate.
  - vm_compute. reflexivity.
  - vm_compute. discriminate.
  - vm_compute. reflexivity.
  - vm_compute. discriminate.
  - vm_compute. repeat split.
  - vm_compute. exact I.
Defined.

(** The rule as worded fails by design when the opposite side is cached
    with an RSSI more than 50 away: right at -95 then left at -50 are both
    accepted; the left packet from a rotated address at -40 has the same
    model and batteries and is 10 from the cached left packet, but 55 from
    the right one. *)
Lemma rotated_address_rule_counterexample :
  ~ @rotated_address_rule_as_stated Sample.platform
      (Sample.after [AdvReceived Sample.right_95 1; AdvReceived Sample.left_50 2])
      Sample.left_40_rotated.
Proof.
  intros Hrule.
  specialize (Hrule Sample.left_50 2).
  assert (result (@IsPossibleDesiredAdv Sample.platform Sample.left_40_rotated
            (Sample.after [AdvReceived Sample.right_95 1;
                           AdvReceived Sample.left_50 2])) = false) as Hrej
    by (vm_compute; reflexivity).
  rewrite Hrule in Hrej; [discriminate Hrej| | | | | |].
  - vm_compute. discriminate.
  - vm_compute. reflexivity.
  - vm_compute. discriminate.
  - vm_compute. reflexivity.
  - vm_compute. discriminate.
  - vm_compute. repeat split; discriminate.
Qed.

(** The battery rule compares the stored percentages, which the constructor
    has scaled by ten, against 1: with no other side cached, a left pod
    going from 70% to 60% under a rotated address is rejected. *)
Example rotated_address_one_step_rejected :
  let s := Sample.after [AdvReceived Sample.left_50 1] in
  cache Left s = Some (Sample.left_50, 1)
  /\ cache Right s = None
  /\ @IsPossibleDesiredAdv Sample.platform Sample.left_50_rotated_60 s
     = (false, s,
        [LOG Warn
           "IsPossibleDesiredAdv returns false. Reason: BatteryDiff l='{}' r='{}' c='{}'"]).
Proof. vm_compute. repeat split. Qed.

(** Idempotence as worded fails on a tie of receipt times.  The right side
    is cached at instant 5; a left packet also stamped 5 is accepted and
    produces an event (it brings the case battery), but the merge keeps the
    right snapshot of the left pod.  The same packet at instant 6 is now
    strictly later, the left pod comes from it (in ear), and a second event
    is returned. *)
Lemma repeat_is_silent_counterexample :
  ~ @repeat_is_silent_as_stated Sample.platform
      (Sample.after [AdvReceived Sample.right_no_case 5])
      Sample.left_in_ear 5 6.
Proof.
  intros Hsilent.
  destruct Hsilent as (_ & Hnone & _).
  - vm_compute. reflexivity.
  - vm_compute. discriminate.
  - vm_compute. discriminate.
  - vm_compute in Hnone. discriminate Hnone.
Qed.

Lemma OnAdvReceived_repeat_is_silent_witness :
  let s := Sample.after [AdvReceived Sample.right_no_case 5] in
  let s1 := final (@OnAdvReceived Sample.platform Sample.left_in_ear 6 s) in
  result (@IsPossibleDesiredAdv Sample.platform Sample.left_in_ear s1) = true
  /\ result (@OnAdvReceived Sample.platform Sample.left_in_ear 7 s1) = None
  /\ _cachedState (final (@OnAdvReceived Sample.platform Sample.left_in_ear 7 s1))
     = _cachedState s1.
Proof.
  apply (@OnAdvReceived_repeat_is_silent Sample.platform
           (Sample.after [AdvReceived Sample.right_no_case 5])
           Sample.left_in_ear 6 7).
  - vm_compute. reflexivity.
  - vm_compute. reflexivity.
  - vm_compute. discriminate.
Defined.

Lemma UpdateState_tie_goes_right_witness :
  let s := Sample.after [AdvReceived Sample.right_no_case 5;
                         AdvReceived Sample.left_in_ear 5] in
  PICK_SIDE (usable GLeftPod) (CachedAdvState (_adv s))
  = GetAdvState Sample.right_no_case
  /\ exists st,
       _cachedState (final (UpdateState s)) = Some st
       /\ Sides.left (State.pods st)
          = Sides.left (AdvState.pods (GetAdvState Sample.right_no_case)).
Proof.
  intros s.
  destruct (UpdateState_tie_goes_right s GLeftPod Sample.left_in_ear
              Sample.right_no_case 5 5)
    as (Htie & _ & _ & _ & st & Hst & Htaken).
  - vm_compute. reflexivity.
  - vm_compute. reflexivity.
  - vm_compute. reflexivity.
  - vm_compute. reflexivity.
  - split; [apply Htie; reflexivity|].
    exists st. split; [exact Hst|].
    rewrite <- (Htie eq_refl). exact Htaken.
Defined.

(** Merge freshness and availability on concrete caches: the group comes
    from the later snapshot when both report it, and from the only one
    that reports it otherwise. *)
Example merge_later_and_only :
  let s := Sample.after [AdvReceived Sample.right_no_case 5;
                         AdvReceived Sample.left_in_ear 6] in
  exists st,
    _cachedState s = Some st
    /\ Sides.left (State.pods st)
       = Sides.left (AdvState.pods (GetAdvState Sample.left_in_ear))
    /\ State.caseBox st = AdvState.caseBox (GetAdvState Sample.left_in_ear)
    /\ CaseState.battery (State.caseBox st) = Some 50.
Proof. eexists. vm_compute. repeat split. Qed.

Lemma lost_timer_notifies_once_witness :
  let s := Sample.after [AdvReceived Sample.left_50 1] in
  @step Sample.platform LostTimerFired s
  = (None, cleared s,
     [LOG Info "StateManager: Device is lost."; DisconnectSafely])
  /\ @run Sample.platform (repeat LostTimerFired 3) (cleared s)
     = ([], cleared s, []).
Proof.
  intros s.
  destruct (@lost_timer_notifies_once Sample.platform s
              (MergedState (_adv s)) 3) as (_ & Hfirst & Hlater).
  - vm_compute. repeat split.
  - vm_compute. reflexivity.
  - split; assumption.
Defined.

(** Per-side expiry as worded fails: with the left pod last merged from the
    left packet, the firing of the left reset timer clears the left cache;
    the merge of what remains (the right packet alone: left pod not in ear,
    no case battery) differs from the canonical state, yet the firing
    returns no event. *)
Lemma expiry_emits_update_counterexample :
  ~ @expiry_emits_update_as_stated Sample.platform Left
      (Sample.after [AdvReceived Sample.right_no_case 5;
                     AdvReceived Sample.left_in_ear 6]).
Proof.
  intros (_ & _ & Hevent).
  destruct Hevent as [ev Hev].
  - vm_compute. discriminate.
  - vm_compute in Hev. discriminate Hev.
Qed.

Lemma reset_timer_clears_one_side_witness :
  let s := Sample.after [AdvReceived Sample.right_no_case 5;
                         AdvReceived Sample.left_in_ear 6] in
  let fired := @step Sample.platform (ResetTimerFired Left) s in
  result fired = None
  /\ cache Left (final fired) = None
  /\ cache Right (final fired) = cache Right s
  /\ _cachedState (final fired) = _cachedState s.
Proof.
  intros s fired.
  destruct (@reset_timer_clears_one_side Sample.platform Left s)
    as (Hres & _ & Hsame & Hother & Hcanon & _).
  - vm_compute. repeat split.
  - repeat split; assumption.
Defined.

Lemma Advertisement_battery_scaling_witness :
  let adv := Sample.raw_advert in
  scaled_from (Protocol.GetLeftBattery (_protocol adv))
    (PodState.battery (Sides.left (AdvState.pods (GetAdvState adv))))
  /\ scaled_from (Protocol.GetRightBattery (_protocol adv))
       (PodState.battery (Sides.right (AdvState.pods (GetAdvState adv))))
  /\ scaled_from (Protocol.GetCaseBattery (_protocol adv))
       (CaseState.battery (AdvState.caseBox (GetAdvState adv))).
Proof.
  apply (@Advertisement_battery_scaling Sample.platform Sample.raw_record
           Sample.raw_advert).
  vm_compute. reflexivity.
Defined.

(** Raw 7 is stored as 70; the sentinel is stored as unavailable. *)
Example battery_scaling_run :
  @Advertisement_new Sample.platform Sample.raw_record = Done Sample.raw_advert
  /\ Protocol.GetLeftBattery (_protocol Sample.raw_advert) = Some 7
  /\ PodState.battery
       (Sides.left (AdvState.pods (GetAdvState Sample.raw_advert))) = Some 70
  /\ Protocol.GetCaseBattery (_protocol Sample.raw_advert) = None
  /\ CaseState.battery (AdvState.caseBox (GetAdvState Sample.raw_advert))
     = None.
Proof. vm_compute. repeat split. Qed.

Lemma OnAdvertisementReceived_disconnected_witness :
  @OnAdvertisementReceived Sample.platform Sample.raw_record 1
    (Sample.manager false Sample.fresh)
  = Done (false, Sample.manager false Sample.fresh,
          [LOG Trace
             "AirPods advertisement received. Data: {}, Address Hash: {}, RSSI: {}";
           LOG Info
             "AirPods advertisement received, but device disconnected."]).
Proof.
  apply (@OnAdvertisementReceived_disconnected Sample.platform).
  - vm_compute. reflexivity.
  - reflexivity.
Defined.

(** The connected path on the same record: the packet is stored, the
    window is updated and the answer is [true]. *)
Example OnAdvertisementReceived_connected_run :
  exists m' trace,
    @OnAdvertisementReceived Sample.platform Sample.raw_record 1
      (Sample.manager true Sample.fresh) = Done (true, m', trace)
    /\ _deviceName m' = "AirPods Pro"%string
    /\ cache Left (_stateMgr m') = Some (Sample.raw_advert, 1).
Proof. eexists _, _. vm_compute. repeat split. Qed.

(** ** Concrete runs of the further properties *)

Lemma IsPossibleDesiredAdv_empty_caches_witness :
  result (@IsPossibleDesiredAdv Sample.platform Sample.left_50 Sample.fresh)
  = true
  <-> _rssiMin Sample.fresh <= GetRssi Sample.left_50.
Proof.
  apply (@IsPossibleDesiredAdv_empty_caches Sample.platform Sample.fresh
           Sample.left_50); reflexivity.
Defined.

(** The left packet again from its own address, now 40 weaker and with
    another battery value: nothing of the cached left packet is compared. *)
Lemma IsPossibleDesiredAdv_same_address_witness :
  let s := Sample.after [AdvReceived Sample.left_50 1] in
  let adv := Sample.advert 100 (-90) Left x02 x08 x05 x00 in
  result (@IsPossibleDesiredAdv Sample.platform adv s) = true
  <-> _rssiMin s <= GetRssi adv
      /\ forall another ta,
           cache (opposite (advSide adv)) s = Some (another, ta) ->
           Int.absdiff16 (GetRssi adv) (GetRssi another) <= 50.
Proof.
  apply (@IsPossibleDesiredAdv_same_address Sample.platform
           (Sample.after [AdvReceived Sample.left_50 1])
           (Sample.advert 100 (-90) Left x02 x08 x05 x00) Sample.left_50 1).
  - vm_compute. reflexivity.
  - reflexivity.
Defined.

Lemma absdiff16_rejects_witness :
  (Int.absdiff16 32767 (-1) >? 50) = true
  <-> 50 < Z.abs (32767 - -1) < 32768.
Proof.
  apply (absdiff16_rejects 32767 (-1)); unfold int16; lia.
Defined.

Lemma batteries_ok_constructed_witness :
  @batteries_ok Sample.platform (GetAdvState Sample.left_50_rotated_60)
    (GetAdvState Sample.left_50) = true
  <-> batteries battery_unchanged (GetAdvState Sample.left_50_rotated_60)
        (GetAdvState Sample.left_50).
Proof.
  apply (@batteries_ok_constructed Sample.platform
           (_data Sample.left_50_rotated_60) (_data Sample.left_50)).
  - vm_compute. reflexivity.
  - vm_compute. reflexivity.
  - vm_compute. repeat split; discriminate.
  - vm_compute. repeat split; discriminate.
Defined.

Lemma run_events_chain_witness :
  let inputs := [AdvReceived Sample.right_no_case 5;
                 AdvReceived Sample.left_in_ear 6;
                 ResetTimerFired Left;
                 AdvReceived Sample.right_no_case 8] in
  chained (_cachedState Sample.fresh)
    (result (@run Sample.platform inputs Sample.fresh))
  /\ _cachedState (final (@run Sample.platform inputs Sample.fresh))
     = last_state (_cachedState Sample.fresh)
         (result (@run Sample.platform inputs Sample.fresh)).
Proof.
  apply (@run_events_chain Sample.platform).
  - apply wired_new.
  - repeat constructor.
Defined.

Lemma both_sides_expired_keep_canonical_witness :
  let s := Sample.after [AdvReceived Sample.right_no_case 5;
                         AdvReceived Sample.left_in_ear 6] in
  let r := @run Sample.platform
             [ResetTimerFired Left; ResetTimerFired Right] s in
  result r = []
  /\ cache Left (final r) = None
  /\ cache Right (final r) = None
  /\ _cachedState (final r) = _cachedState s
  /\ result (GetCurrentState (final r)) = _cachedState s
  /\ count is_disconnect (effects r) = 0%nat
  /\ final (@run Sample.platform
              [ResetTimerFired Right; ResetTimerFired Left] s) = final r.
Proof.
  apply (@both_sides_expired_keep_canonical Sample.platform).
  vm_compute. repeat split.
Defined.


Lemma accepted_restarts_own_timers_witness :
  let s := Sample.after [AdvReceived Sample.right_no_case 5] in
  let s' := final (@OnAdvReceived Sample.platform Sample.left_in_ear 6 s) in
  _lostTimer s' = Timer.Reset 6 (_lostTimer s)
  /\ reset_timer Left s' = Timer.Reset 6 (reset_timer Left s)
  /\ reset_timer Right s' = reset_timer Right s.
Proof.
  apply (@accepted_restarts_own_timers Sample.platform Sample.left_in_ear 6
           (Sample.after [AdvReceived Sample.right_no_case 5])).
  vm_compute. reflexivity.
Defined.

Lemma OnAdvertisementReceived_connected_path_witness :
  let m := Sample.manager true Sample.fresh in
  exists m' trace,
    @OnAdvertisementReceived Sample.platform Sample.raw_record 1 m
    = Done (true, m', trace)
    /\ _stateMgr m'
       = final (@OnAdvReceived Sample.platform Sample.raw_advert 1
                  (_stateMgr m))
    /\ count is_update trace
       = b2n (has_value
                (result (@OnAdvReceived Sample.platform Sample.raw_advert 1
                           (_stateMgr m))))
    /\ (result (@IsPossibleDesiredAdv Sample.platform Sample.raw_advert
                  (_stateMgr m)) = false ->
        m' = m /\ Forall is_log trace).
Proof.
  apply (@OnAdvertisementReceived_connected_path Sample.platform
           Sample.raw_record 1 (Sample.manager true Sample.fresh)
           Sample.raw_advert).
  - vm_compute. reflexivity.
  - reflexivity.
Defined.

Lemma OnBoundDeviceAddressChanged_name_witness :
  let name :=
    _deviceName
      (_manager
         (final (OnBoundDeviceAddressChanged
                   Scenario.directory 7
                   (Scenario.unbound (Sample.manager false Sample.fresh)))))
  in
  name = (if found_in "Bluetooth" (Device.GetName Scenario.generic)
          then EmptyString else Device.GetName Scenario.generic)
  /\ found_in "Bluetooth" name = false.
Proof.
  apply (OnBoundDeviceAddressChanged_name Scenario.directory 7).
  reflexivity.
Defined.

Lemma Advertisement_depends_on_vendor_entry_witness :
  @IsDesiredAdv Sample.platform Sample.raw_record
  = @IsDesiredAdv Sample.platform Scenario.raw_record_elsewhere
  /\ forall a1 a2,
       @Advertisement_new Sample.platform Sample.raw_record = Done a1 ->
       @Advertisement_new Sample.platform Scenario.raw_record_elsewhere
       = Done a2 ->
       GetAdvState a1 = GetAdvState a2
       /\ _protocol a1 = _protocol a2
       /\ GetRssi a1 = ReceivedData.rssi Sample.raw_record
       /\ GetAddress a1 = ReceivedData.address Sample.raw_record
       /\ GetTimestamp a1 = ReceivedData.timestamp Sample.raw_record.
Proof.
  apply (@Advertisement_depends_on_vendor_entry Sample.platform).
  vm_compute. reflexivity.
Defined.

(** Binding and listing on the scenario's directory: the generic name is
    dropped, the connected device sets the flag, and of three paired
    devices the two with the expected vendor and a known product stay. *)
Example binding_and_listing_run :
  _deviceName
    (_manager
       (final (OnBoundDeviceAddressChanged
                 Scenario.directory 7
                 (Scenario.unbound (Sample.manager false Sample.fresh)))))
  = EmptyString
  /\ _deviceConnected
       (_manager
          (final (OnBoundDeviceAddressChanged
                    Scenario.directory 100
                    (Scenario.unbound (Sample.manager false Sample.fresh)))))
     = true
  /\ result (@GetDevices Sample.platform Scenario.model_of
               [Scenario.headset; Scenario.pods; Scenario.generic] tt)
     = [Scenario.pods; Scenario.generic].
Proof. vm_compute. repeat split. Qed.
